(** * Candidate-verification and coverage-measurement harness

    A shallow embedding of the response normalizer, the program-convention
    detector, the coverage aggregator and the result classifier of
    [run_coverage_tests.py], and of the code extraction and test execution of
    [evaluate_humaneval.py].

    Conventions of the embedding.
    - A Python [str] is a list of characters ([list ascii]); the model covers
      texts whose code points are below 256.  [str.lower], which keeps the
      length of such a text but not of every text, is left open in the code
      extraction ([extract_code_with]); what is proved of it for every
      lowering function does not rest on that length.
    - Coverage percentages are exact rationals ([Q]); every finite float is a
      rational and the comparisons of the classifier are exact on them.
      Neither the rounding of float arithmetic nor its overflow beyond the
      float range is modelled.
    - A Python [dict] is a [gmap] with [string] keys.
    - A function that can raise returns a sum whose left side is the
      exception. *)

From Stdlib Require Import Ascii String ZArith QArith Lia Lqa Bool.
From stdpp Require Import base option list gmap strings pretty.

Local Open Scope Z_scope.
Local Open Scope nat_scope.
Local Open Scope list_scope.

(** ** Python strings *)

Module PyStr.

Definition str := list ascii.

(** A literal of the source. *)
Definition lit (s : string) : str := list_ascii_of_string s.

Definition nl : ascii := "010"%char.
Definition tab : ascii := "009"%char.

(** [c.isspace()] for a code point below 256: the Unicode white space there is
    9-13, 28-32, 133 and 160. *)
Definition isspace (c : ascii) : bool :=
  let n := nat_of_ascii c in
  ((9 <=? n) && (n <=? 13)) || ((28 <=? n) && (n <=? 32))
  || (n =? 133) || (n =? 160).

(** [s.startswith(p)] *)
Fixpoint startswith (s p : str) {struct p} : bool :=
  match p, s with
  | [], _ => true
  | _ :: _, [] => false
  | a :: p', b :: s' => Ascii.eqb b a && startswith s' p'
  end.

(** The scan of [s.find(sub, start)]: [s] is the text from offset [i] on. *)
Fixpoint find_in (s sub : str) (i : nat) : option nat :=
  if startswith s sub then Some i
  else match s with
       | [] => None
       | _ :: s' => find_in s' sub (S i)
       end.

(** A slice bound as Python clamps it: a negative index counts from the end. *)
Definition clamp (n : nat) (i : Z) : nat :=
  if (i <? 0)%Z then Z.to_nat (Z.max 0 (Z.of_nat n + i))
  else Nat.min (Z.to_nat i) n.

(** [s.find(sub, start)]: the lowest index at or after [start] where [sub]
    occurs, [-1] when there is none. *)
Definition find (s sub : str) (start : Z) : Z :=
  let st := if (start <? 0)%Z then Z.to_nat (Z.max 0 (Z.of_nat (length s) + start))
            else Z.to_nat start in
  if st <=? length s then
    match find_in (drop st s) sub st with
    | Some i => Z.of_nat i
    | None => (-1)%Z
    end
  else (-1)%Z.

(** [sub in s] *)
Definition contains (sub s : str) : bool :=
  match find_in s sub 0 with Some _ => true | None => false end.

(** [s[start:stop]] and [s[start:]] *)
Definition slice (s : str) (start stop : Z) : str :=
  let a := clamp (length s) start in
  let b := clamp (length s) stop in
  take (b - a) (drop a s).

Definition slice_from (s : str) (start : Z) : str :=
  drop (clamp (length s) start) s.

(** [s.strip()] *)
Fixpoint lstrip (s : str) : str :=
  match s with
  | c :: s' => if isspace c then lstrip s' else s
  | [] => []
  end.

Definition rstrip (s : str) : str := rev (lstrip (rev s)).

Definition strip (s : str) : str := rstrip (lstrip s).

(** [s.split(sep)] for a one-character separator: never the empty list. *)
Fixpoint split (s : str) (sep : ascii) : list str :=
  match s with
  | [] => [[]]
  | c :: s' =>
      if Ascii.eqb c sep then [] :: split s' sep
      else match split s' sep with
           | l :: ls => (c :: l) :: ls
           | [] => [[c]]
           end
  end.

(** [sep.join(parts)] *)
Fixpoint join (sep : str) (parts : list str) : str :=
  match parts with
  | [] => []
  | [p] => p
  | p :: ps => p ++ sep ++ join sep ps
  end.

(** Truth value of a string: non-empty. *)
Definition truthy (s : str) : bool :=
  match s with [] => false | _ :: _ => true end.

(** The text whose lines are [ls]. *)
Definition unlines (ls : list string) : str := join [nl] (map lit ls).

End PyStr.

Import PyStr.

(** ** Exceptions *)

(** The exceptions of the modelled code.  [UnboundLocalError] is Python's
    subclass of [NameError] for a local variable read before assignment;
    [ZeroDivisionError] is what [/] raises on a zero divisor;
    [SubprocessTimeout] is [subprocess.TimeoutExpired]. *)
Inductive exn :=
  | UnboundLocalError (name : string)
  | ZeroDivisionError
  | SubprocessTimeout.

Definition is_NameError (e : exn) : bool :=
  match e with UnboundLocalError _ => true | _ => false end.

Definition result (A : Type) := (exn + A)%type.

Definition ret {A} (a : A) : result A := inr a.
Definition raise {A} (e : exn) : result A := inl e.
Definition bind {A B} (m : result A) (k : A → result B) : result B :=
  match m with inl e => inl e | inr a => k a end.

Notation "'let!' x ':=' m 'in' k" := (bind m (fun x => k))
  (at level 10, x name, m at level 100, k at level 200).

(** Reading a local variable of a function: unbound until assigned. *)
Definition read_local {A} (name : string) (v : option A) : result A :=
  match v with Some a => ret a | None => raise (UnboundLocalError name) end.

(** ** ResponseNormalizer: [CoverageAnalyzer.clean_llm_response] *)

Module Normalizer.

Definition fence_python : str := lit "```python".
Definition fence : str := lit "```".
Definition indent4 : str := lit "    ".
Definition def_kw : str := lit "def ".

(** Lines 39-52: remove markdown code blocks. *)
Definition strip_fences (code : str) : str :=
  if contains fence_python code then
    let start := (find code fence_python 0 + 9)%Z in
    let end_ := find code fence start in
    if negb (end_ =? -1)%Z then strip (slice code start end_)
    else strip (slice_from code start)
  else if contains fence code then
    let start := (find code fence 0 + 3)%Z in
    let end_ := find code fence start in
    if negb (end_ =? -1)%Z then strip (slice code start end_)
    else strip (slice_from code start)
  else code.

(** Lines 59-65: the body of the loop over [lines[1:]]. *)
Definition fix_line (line : str) : str :=
  if truthy (strip line) then
    if negb (startswith line indent4) && negb (startswith line [tab])
    then indent4 ++ strip line
    else line
  else line.

(** Lines 55-66: fix indentation. *)
Definition fix_indentation (code : str) : str :=
  match split code nl with
  | line0 :: rest =>
      if startswith (strip line0) def_kw
      then join [nl] (line0 :: map fix_line rest)
      else code
  | [] => code
  end.

Definition clean_llm_response (code : str) : str :=
  fix_indentation (strip_fences code).

End Normalizer.

(** ** Code extraction of the evaluator: [LLMEvaluator.extract_code] *)

Module Evaluator.

(** [c.lower()] on code points below 256: A-Z, and the Latin-1 capitals
    192-222 except the multiplication sign 215. *)
Definition lower_char (c : ascii) : ascii :=
  let n := nat_of_ascii c in
  if ((65 <=? n) && (n <=? 90))
     || ((192 <=? n) && (n <=? 222) && negb (n =? 215))
  then ascii_of_nat (n + 32) else c.

(** [s.lower()] on a text of code points below 256: character by character,
    so that the length is kept.  Beyond them [str.lower] can lengthen a text
    (U+0130 becomes two code points). *)
Definition lower (s : str) : str := map lower_char s.

(** [extract_code], lines 142-159, with [str.lower] left open as
    [str_lower].  The local [lower_llm_response] is assigned only on the first
    branch; the [elif] condition reads it on the other.  The offsets are
    found in the lowered text and the slices are taken from the text
    itself. *)
Definition extract_code_with (str_lower : str → str) (llm_response : str)
    : result str :=
  if contains Normalizer.fence_python llm_response then
    let lower_llm_response := Some (str_lower llm_response) in
    let! l := read_local "lower_llm_response" lower_llm_response in
    let start := (find l Normalizer.fence_python 0
                  + Z.of_nat (length Normalizer.fence_python))%Z in
    let end_ := find l Normalizer.fence start in
    if negb (end_ =? -1)%Z then ret (strip (slice llm_response start end_))
    else ret (strip (slice_from llm_response start))
  else
    let lower_llm_response : option str := None in
    let! l := read_local "lower_llm_response" lower_llm_response in
    if contains Normalizer.fence l then
      let start := (find l Normalizer.fence 0 + 3)%Z in
      let end_ := find l Normalizer.fence start in
      if negb (end_ =? -1)%Z then ret (strip (slice llm_response start end_))
      else ret (strip (slice_from llm_response start))
    else ret (strip llm_response).

(** [extract_code] on the texts of the model, where [str.lower] is
    [lower]. *)
Definition extract_code : str → result str := extract_code_with lower.

End Evaluator.

(** ** SolutionAssembler: detection of the program convention *)

Module Assembler.

(** [line and not line[0].isspace()] *)
Definition starts_unindented (line : str) : bool :=
  match line with
  | [] => false
  | c :: _ => negb (isspace c)
  end.

(** The loop of [_detect_function_based_solution], lines 79-106, with its
    two flags; the result is [has_execution_code] at the loop's exit. *)
Fixpoint scan_lines (lines : list str) (in_function in_class : bool) : bool :=
  match lines with
  | [] => false
  | line :: rest =>
      let stripped := strip line in
      if negb (truthy stripped) || startswith stripped (lit "#") then
        scan_lines rest in_function in_class
      else if startswith stripped (lit "def ") then
        scan_lines rest true in_class
      else if startswith stripped (lit "class ") then
        scan_lines rest in_function true
      else if (in_function || in_class) && negb (starts_unindented line) then
        scan_lines rest in_function in_class
      else
        (* either no flag is set, or the line is unindented and both flags
           are cleared *)
        if negb (startswith stripped (lit "import "))
           && negb (startswith stripped (lit "from "))
           && negb (startswith stripped (lit "def "))
           && negb (startswith stripped (lit "class "))
        then true
        else scan_lines rest false false
  end.

Definition _detect_function_based_solution (code : str) : bool :=
  negb (scan_lines (split (strip code) nl) false false).

Fixpoint first_def (lines : list str) : option str :=
  match lines with
  | [] => None
  | line :: rest =>
      let stripped := strip line in
      if startswith stripped (lit "def ") then
        Some (strip (hd [] (split (slice_from stripped 4) "("%char)))
      else first_def rest
  end.

Definition _extract_main_function_name (code : str) : option str :=
  first_def (split (strip code) nl).

(** Lines 329-333: the text appended for [main_func]. *)
Definition wrapper (main_func : str) : str :=
  [nl; nl] ++ lit "# Auto-generated wrapper" ++ [nl]
  ++ lit "def _run_solution():" ++ [nl]
  ++ lit "    result = " ++ main_func ++ lit "()" ++ [nl]
  ++ lit "    if result is not None:" ++ [nl]
  ++ lit "        print(result)" ++ [nl].

(** Lines 318-333 of [test_apps_problem]: the solution file's text. *)
Definition solution_code (llm_code : str) : str :=
  if _detect_function_based_solution llm_code then
    match _extract_main_function_name llm_code with
    | Some main_func =>
        if truthy main_func then llm_code ++ wrapper main_func else llm_code
    | None => llm_code
    end
  else llm_code.

End Assembler.

(** ** Python values of the reports *)

(** A number (int or float) is a rational; texts of the reports are
    [string]s. *)
Inductive pyval :=
  | PNum (q : Q)
  | PStr (s : string)
  | PBool (b : bool).

(** [isinstance(v, (int, float))]: a [bool] is an [int]. *)
Definition is_number (v : pyval) : bool :=
  match v with PNum _ | PBool _ => true | PStr _ => false end.

(** [v == q] for a number [q]; [True] and [False] compare as 1 and 0, a text
    is equal to no number. *)
Definition eq_num (v : pyval) (q : Q) : bool :=
  match v with
  | PNum x => Qeq_bool x q
  | PBool b => Qeq_bool (if b then 1 else 0) q
  | PStr _ => false
  end.

(** [v < q], read only behind [isinstance] *)
Definition lt_num (v : pyval) (q : Q) : bool :=
  match v with
  | PNum x => negb (Qle_bool q x)
  | PBool b => negb (Qle_bool q (if b then 1 else 0))
  | PStr _ => false
  end.

(** ** ResultClassifier: [CoverageAnalyzer.interpret_coverage] *)

Module Classifier.

Definition interpret_coverage
    (line_cov : Q) (branch_cov : pyval) (num_branches : Q)
    (tests_passed : bool) : string :=
  if negb tests_passed then
    "Tests failed - coverage may be incomplete"
  else if Qeq_bool line_cov 100
          && (eq_num branch_cov 100 || Qeq_bool num_branches 0) then
    "Perfect coverage - all code paths tested"
  else if Qle_bool 90 line_cov then
    if is_number branch_cov && lt_num branch_cov 80 then
      "High line coverage but low branch coverage - missing edge cases"
    else "Excellent coverage"
  else if Qle_bool 70 line_cov then
    if is_number branch_cov && lt_num branch_cov 60 then
      "Good line coverage but poor branch coverage - untested conditionals"
    else "Good coverage with room for improvement"
  else if Qle_bool 50 line_cov then
    "Moderate coverage - significant untested code paths"
  else
    "Low coverage - many code paths untested".

(** *** The decision table of the specification, section 4.5 *)

Inductive Verdict :=
  | FailedIncomplete
  | PerfectCoverage
  | HighLineLowBranch
  | Excellent
  | GoodLineLowBranch
  | Good
  | Moderate
  | Low.

(** A branch coverage of the table: a percentage or the constant "full". *)
Inductive BranchCov :=
  | Pct (q : Q)
  | Full.

(** "full" is treated identically to 100 (section 4.4), so a percentage of
    100 is full and "full" is below no threshold. *)
Definition is_full (b : BranchCov) : bool :=
  match b with Full => true | Pct q => Qeq_bool q 100 end.

Definition below (b : BranchCov) (t : Q) : bool :=
  match b with Full => false | Pct q => negb (Qle_bool t q) end.

(** The six rows, first match wins. *)
Definition table (testsPassed : bool) (lineCov : Q) (branchCov : BranchCov)
    (hasBranches : bool) : Verdict :=
  if negb testsPassed then FailedIncomplete
  else if Qeq_bool lineCov 100 && (is_full branchCov || negb hasBranches)
  then PerfectCoverage
  else if Qle_bool 90 lineCov then
    if hasBranches && below branchCov 80 then HighLineLowBranch else Excellent
  else if Qle_bool 70 lineCov then
    if hasBranches && below branchCov 60 then GoodLineLowBranch else Good
  else if Qle_bool 50 lineCov then Moderate
  else Low.

(** The same rows, except that the third and the fourth do not ask whether
    there are branches: they fire on every branch coverage that is a
    percentage below the threshold. *)
Definition table_as_coded (testsPassed : bool) (lineCov : Q)
    (branchCov : BranchCov) (hasBranches : bool) : Verdict :=
  if negb testsPassed then FailedIncomplete
  else if Qeq_bool lineCov 100 && (is_full branchCov || negb hasBranches)
  then PerfectCoverage
  else if Qle_bool 90 lineCov then
    if below branchCov 80 then HighLineLowBranch else Excellent
  else if Qle_bool 70 lineCov then
    if below branchCov 60 then GoodLineLowBranch else Good
  else if Qle_bool 50 lineCov then Moderate
  else Low.

(** The text the code returns for each verdict. *)
Definition label (v : Verdict) : string :=
  match v with
  | FailedIncomplete => "Tests failed - coverage may be incomplete"
  | PerfectCoverage => "Perfect coverage - all code paths tested"
  | HighLineLowBranch =>
      "High line coverage but low branch coverage - missing edge cases"
  | Excellent => "Excellent coverage"
  | GoodLineLowBranch =>
      "Good line coverage but poor branch coverage - untested conditionals"
  | Good => "Good coverage with room for improvement"
  | Moderate => "Moderate coverage - significant untested code paths"
  | Low => "Low coverage - many code paths untested"
  end.

(** How the harness passes a branch coverage of the table to the code: the
    aggregator's value for "full" is the number 100. *)
Definition encode (b : BranchCov) : pyval :=
  match b with Full => PNum 100 | Pct q => PNum q end.

(** A percentage of the table lies in [0,100]. *)
Definition pct_ok (q : Q) : Prop := (0 <= q)%Q ∧ (q <= 100)%Q.

Definition branch_ok (b : BranchCov) : Prop :=
  match b with Full => True | Pct q => pct_ok q end.

End Classifier.

(** ** CoverageAggregator *)

Module Aggregator.

(** [a / b] on numbers *)
Definition truediv (a b : Q) : result Q :=
  if Qeq_bool b 0 then raise ZeroDivisionError else ret (a / b)%Q.

(** Lines 254 and 409:
    [(covered_branches / num_branches * 100) if num_branches > 0 else 100] *)
Definition branch_coverage (covered_branches num_branches : Q) : result Q :=
  if negb (Qle_bool num_branches 0) then
    let! r := truediv covered_branches num_branches in
    ret (r * 100)%Q
  else ret 100%Q.

(** The [summary] object of [solution.py] in [coverage.json]; a key that is
    missing reads as 0 ([.get(key, 0)]). *)
Definition get0 (summary : gmap string Q) (key : string) : Q :=
  default 0%Q (summary !! key).

End Aggregator.

(** ** IsolatedExecutor: subprocesses and the records built from them *)

Module Executor.

(** What [subprocess.run] returns for a process that exits. *)
Record completed := Completed {
  returncode : Z;
  stdout : str;
  stderr : str
}.

(** A child process: the time it runs before it exits on its own ([None]: it
    never does), what it then returns, and the [summary] of [solution.py] in
    the [coverage.json] it leaves behind ([None]: no such file). *)
Record process := Process {
  duration : option Q;
  exit : completed;
  coverage_file : option (gmap string Q)
}.

(** The three ways a call of [subprocess.run] can go: it returns, it kills
    the child at the bound and raises [TimeoutExpired], or it waits for
    ever. *)
Inductive run_outcome :=
  | Returned (r : completed)
  | TimeoutExpired
  | NeverReturns.

(** [subprocess.run(..., timeout=t)]; [None] is the call without [timeout]. *)
Definition subprocess_run (p : process) (timeout : option Q) : run_outcome :=
  match duration p, timeout with
  | Some d, Some t => if Qle_bool d t then Returned (exit p) else TimeoutExpired
  | None, Some _ => TimeoutExpired
  | Some _, None => Returned (exit p)
  | None, None => NeverReturns
  end.

(** The run time of [p] exceeds the bound [t]. *)
Definition exceeds (p : process) (t : Q) : Prop :=
  match duration p with
  | Some d => (t < d)%Q
  | None => True
  end.

(** What a call of a harness function comes to: it returns a value, raises,
    or never returns. *)
Inductive call (A : Type) :=
  | Value (a : A)
  | Raises (e : exn)
  | Blocked.
Arguments Value {A} a.
Arguments Raises {A} e.
Arguments Blocked {A}.

Definition of_result {A} (r : result A) : call A :=
  match r with inl e => Raises e | inr a => Value a end.

(** [LLMEvaluator.run_tests], lines 161-188, for a test file that exists:
    the run is bounded by 30 and [TimeoutExpired] is caught. *)
Definition run_tests (p : process) : call (gmap string pyval) :=
  match subprocess_run p (Some 30%Q) with
  | Returned r =>
      Value {[ "success" := PBool (returncode r =? 0)%Z;
               "stdout" := PStr (string_of_list_ascii (stdout r));
               "stderr" := PStr (string_of_list_ascii (stderr r));
               "return_code" := PNum (inject_Z (returncode r)) ]}
  | TimeoutExpired => Value {[ "error" := PStr "Test execution timed out" ]}
  | NeverReturns => Blocked
  end.

(** [s.count(sub)] for a non-empty [sub]: occurrences that do not overlap;
    [skip] characters of the last one are still to be passed. *)
Fixpoint count_from (s sub : str) (skip : nat) : nat :=
  match s with
  | [] => 0
  | _ :: s' =>
      match skip with
      | S k => count_from s' sub k
      | 0 => if startswith s sub
             then S (count_from s' sub (length sub - 1))
             else count_from s' sub 0
      end
  end.

Definition count (s sub : str) : nat := count_from s sub 0.

Section Reports.

(** [round(x, 1)] on floats is left open. *)
Variable round1 : Q → Q.

Definition test_type (use_llm_tests : bool) : string :=
  if use_llm_tests then "LLM Tests" else "Original".

Definition test_suffix (use_llm_tests : bool) : string :=
  if use_llm_tests then "_llm" else "".

(** Lines 393-439 of [test_apps_problem]: the record returned for the pytest
    run [r], given whether [coverage.json] exists. *)
Definition apps_record (problem_name : string) (use_llm_tests : bool)
    (total_tests : nat) (r : completed)
    (coverage : option (gmap string Q)) : result (gmap string pyval) :=
  let passed_tests := count (stdout r) (lit " PASSED") in
  let tests := (pretty passed_tests +:+ "/" +:+ pretty total_tests)%string in
  match coverage with
  | Some summary =>
      let line_coverage := Aggregator.get0 summary "percent_covered" in
      let num_statements := Aggregator.get0 summary "num_statements" in
      let covered_lines := Aggregator.get0 summary "covered_lines" in
      let missing_lines := Aggregator.get0 summary "missing_lines" in
      let num_branches := Aggregator.get0 summary "num_branches" in
      let covered_branches := Aggregator.get0 summary "covered_branches" in
      let! branch_coverage :=
        Aggregator.branch_coverage covered_branches num_branches in
      let tests_passed := (returncode r =? 0)%Z in
      let interpretation :=
        Classifier.interpret_coverage line_coverage (PNum branch_coverage)
          num_branches tests_passed in
      ret ({[ "problem" := PStr (problem_name +:+ test_suffix use_llm_tests);
              "type" := PStr ("APPS (" +:+ test_type use_llm_tests +:+ ")");
              "tests_passed" := PStr tests;
              "line_coverage" := PNum (round1 line_coverage);
              "branch_coverage" :=
                (if negb (Qle_bool num_branches 0)
                 then PNum (round1 branch_coverage) else PStr "N/A");
              "num_statements" := PNum num_statements;
              "covered_lines" := PNum covered_lines;
              "missing_lines" := PNum missing_lines;
              "num_branches" := PNum num_branches;
              "covered_branches" := PNum covered_branches;
              "interpretation" := PStr interpretation ]} : gmap string pyval)
  | None =>
      ret ({[ "problem" := PStr (problem_name +:+ test_suffix use_llm_tests);
              "type" := PStr ("APPS (" +:+ test_type use_llm_tests +:+ ")");
              "tests_passed" := PStr tests;
              "line_coverage" := PNum 0;
              "branch_coverage" := PStr "N/A";
              "interpretation" := PStr "Coverage data not generated" ]}
           : gmap string pyval)
  end.

(** Lines 205-230 of [test_humaneval_problem]: the [tests_passed] text.
    [custom_tests] is the truth value of the loaded custom tests and
    [test_content] the text of the copied test file. *)
Definition test_status (custom_tests : bool) (r : completed)
    (test_content : option str) : string :=
  let passed_tests := count (stdout r) (lit " PASSED") in
  let failed_tests := count (stdout r) (lit " FAILED") in
  let total_tests := passed_tests + failed_tests in
  if custom_tests then
    if 0 <? total_tests
    then (pretty passed_tests +:+ "/" +:+ pretty total_tests)%string
    else "Error"
  else if (returncode r =? 0)%Z then "All Pass"
  else match test_content with
       | Some content =>
           let assertion_count := count content (lit "assert ") in
           if 0 <? assertion_count
           then ("0/" +:+ pretty assertion_count)%string else "Fail"
       | None => "Fail"
       end.

(** Lines 236-286 of [test_humaneval_problem]. *)
Definition humaneval_record (problem_name : string) (use_llm_tests : bool)
    (custom_tests : bool) (test_content : option str) (r : completed)
    (coverage : option (gmap string Q)) : result (gmap string pyval) :=
  match coverage with
  | Some summary =>
      let line_coverage := Aggregator.get0 summary "percent_covered" in
      let num_statements := Aggregator.get0 summary "num_statements" in
      let covered_lines := Aggregator.get0 summary "covered_lines" in
      let missing_lines := Aggregator.get0 summary "missing_lines" in
      let num_branches := Aggregator.get0 summary "num_branches" in
      let covered_branches := Aggregator.get0 summary "covered_branches" in
      let! branch_coverage :=
        Aggregator.branch_coverage covered_branches num_branches in
      let tests_passed := (returncode r =? 0)%Z in
      let interpretation :=
        Classifier.interpret_coverage line_coverage (PNum branch_coverage)
          num_branches tests_passed in
      ret ({[ "problem" := PStr (problem_name +:+ test_suffix use_llm_tests);
              "type" :=
                PStr ("HumanEval (" +:+ test_type use_llm_tests +:+ ")");
              "tests_passed" := PStr (test_status custom_tests r test_content);
              "line_coverage" := PNum (round1 line_coverage);
              "branch_coverage" :=
                (if negb (Qle_bool num_branches 0)
                 then PNum (round1 branch_coverage) else PStr "N/A");
              "num_statements" := PNum num_statements;
              "covered_lines" := PNum covered_lines;
              "missing_lines" := PNum missing_lines;
              "num_branches" := PNum num_branches;
              "covered_branches" := PNum covered_branches;
              "interpretation" := PStr interpretation ]} : gmap string pyval)
  | None =>
      ret ({[ "problem" := PStr (problem_name +:+ test_suffix use_llm_tests);
              "type" :=
                PStr ("HumanEval (" +:+ test_type use_llm_tests +:+ ")");
              "tests_passed" := PStr "0/0 (Error)";
              "line_coverage" := PNum 0;
              "branch_coverage" := PStr "N/A";
              "interpretation" := PStr "Coverage data not generated" ]}
           : gmap string pyval)
  end.

(** [test_apps_problem] from the pytest run on (lines 376-439): the run has
    no [timeout] and nothing catches [TimeoutExpired]. *)
Definition test_apps_problem (problem_name : string) (use_llm_tests : bool)
    (total_tests : nat) (pytest : process) : call (gmap string pyval) :=
  match subprocess_run pytest None with
  | Returned r =>
      of_result (apps_record problem_name use_llm_tests total_tests r
                   (coverage_file pytest))
  | TimeoutExpired => Raises SubprocessTimeout
  | NeverReturns => Blocked
  end.

(** [test_humaneval_problem] from the pytest run on (lines 196-286). *)
Definition test_humaneval_problem (problem_name : string)
    (use_llm_tests custom_tests : bool) (test_content : option str)
    (pytest : process) : call (gmap string pyval) :=
  match subprocess_run pytest None with
  | Returned r =>
      of_result (humaneval_record problem_name use_llm_tests custom_tests
                   test_content r (coverage_file pytest))
  | TimeoutExpired => Raises SubprocessTimeout
  | NeverReturns => Blocked
  end.

End Reports.

End Executor.

(** ** Program convention: the generated test cases of [test_apps_problem] *)

Module Isolation.

(** A candidate: the cleaned response [llm_code], from which [solution.py]
    is written, and what running that file does.  The module's dictionary
    [solution.__dict__] is a map from the names of its data globals to their
    values.  [module_body ns input] runs the top-level
    code of the file in the dictionary [ns] with [input] on standard input,
    [run_solution ns input] calls the wrapper [_run_solution()]; each yields
    the dictionary afterwards and the text printed.  The import and the
    reload of a test case run the file before [sys.stdin] is replaced: the
    model covers the candidates whose top-level code reads nothing from
    standard input then (under pytest a read at that point raises), and gives
    the import and the reload the empty input. *)
Record candidate := Candidate {
  source : str;
  module_body : gmap string Z → str → gmap string Z * str;
  run_solution : gmap string Z → str → gmap string Z * str
}.

(** [import solution]: the first import runs the file in a new dictionary,
    a later one finds the module in [sys.modules]. *)
Definition import_solution (c : candidate)
    (sys_modules : option (gmap string Z)) : gmap string Z :=
  match sys_modules with
  | Some ns => ns
  | None => (module_body c ∅ []).1
  end.

(** [importlib.reload(solution)]: the file is run again in the module's own
    dictionary, which is kept. *)
Definition reload (c : candidate) (ns : gmap string Z) : gmap string Z :=
  (module_body c ns []).1.

(** The dictionary in which the code of a test case starts (lines 351-352). *)
Definition case_start (c : candidate)
    (sys_modules : option (gmap string Z)) : gmap string Z :=
  reload c (import_solution c sys_modules).

(** One generated [test_case_i] (lines 350-374): the dictionary it leaves in
    [sys.modules] and whether its assertion holds. *)
Definition test_case (c : candidate) (sys_modules : option (gmap string Z))
    (input_data expected_output : str) : gmap string Z * bool :=
  let solution := case_start c sys_modules in
  let '(after, output) :=
    if Assembler._detect_function_based_solution (source c)
    then run_solution c solution input_data
    else module_body c solution input_data in
  (after, bool_decide (strip output = strip expected_output)).

(** The test cases of one pytest process, in order: for each case the
    dictionary its code starts in and its verdict. *)
Fixpoint run_cases (c : candidate) (sys_modules : option (gmap string Z))
    (cases : list (str * str)) : list (gmap string Z * bool) :=
  match cases with
  | [] => []
  | (input_data, expected_output) :: rest =>
      let '(after, passed) :=
        test_case c sys_modules input_data expected_output in
      (case_start c sys_modules, passed) :: run_cases c (Some after) rest
  end.

(** The dictionary of a module that was just created from the file. *)
Definition fresh (c : candidate) : gmap string Z := (module_body c ∅ []).1.

(** A candidate that counts its invocations in a global it creates on the
    first call:
<<
def solve():
    global calls
    try:
        calls += 1
    except NameError:
        calls = 1
    return calls
>>
    The top-level code binds only [solve]. *)
Definition counting : candidate := {|
  source := unlines ["def solve():"; "    global calls"; "    try:";
                     "        calls += 1"; "    except NameError:";
                     "        calls = 1"; "    return calls"];
  module_body := fun ns _ => (ns, []);
  run_solution := fun ns _ =>
    let n := match ns !! "calls" with Some k => (k + 1)%Z | None => 1%Z end in
    (<["calls" := n]> ns, lit (pretty n) ++ [nl])
|}.

(** A candidate whose counter is bound by the top-level code:
<<
calls = 0
def solve():
    global calls
    calls += 1
    print(calls)
solve()
>> *)
Definition resetting : candidate := {|
  source := unlines ["calls = 0"; "def solve():"; "    global calls";
                     "    calls += 1"; "    print(calls)"; "solve()"];
  module_body := fun ns _ => (<["calls" := 1%Z]> ns, lit "1" ++ [nl]);
  run_solution := fun ns _ => (ns, [])
|}.

End Isolation.

(** ** Notions used to state the properties *)

Module Props.

Import Normalizer.

(** [sub] occurs in [s] at index [k]. *)
Definition occurs (s sub : str) (k : nat) : Prop :=
  startswith (drop k s) sub = true.

(** [sub] occurs nowhere in [s]. *)
Definition absent (sub s : str) : Prop :=
  ∀ k, startswith (drop k s) sub = false.

(** The first occurrence of [sub] in [code] is at index [n]. *)
Definition first_at (sub code : str) (n : nat) : Prop :=
  occurs code sub n ∧ ∀ k, k < n → startswith (drop k code) sub = false.

(** No fence begins inside [body] when a closing fence follows it. *)
Definition closed_by_next (body : str) : Prop :=
  ∀ k, k < length body → startswith (drop k (body ++ fence)) fence = false.

(** What follows an opening fence that ends at [start]: the text up to the next
    fence, or all of it, stripped. *)
Definition interior (code : str) (start : Z) : str :=
  let end_ := find code fence start in
  if negb (end_ =? -1)%Z then strip (slice code start end_)
  else strip (slice_from code start).

(** A line has one level of indentation: four spaces or a tab. *)
Definition indented (line : str) : bool :=
  startswith line indent4 || startswith line [tab].

(** A line is blank: nothing is left of it once stripped. *)
Definition blank (line : str) : bool := negb (truthy (strip line)).

End Props.

Import Props.

(** ** Notions used to state the detection of the program convention *)

Module DetectProps.

(** A line that is neither blank nor a comment. *)
Definition statement_line (line : str) : bool :=
  truthy (strip line) && negb (startswith (strip line) (lit "#")).


Definition import_line (line : str) : bool :=
  startswith (strip line) (lit "import ")
  || startswith (strip line) (lit "from ").

(** A line that starts in the first column. *)
Definition top_level (line : str) : bool := Assembler.starts_unindented line.






End DetectProps.

(** ** Inputs used in the examples *)

Module Examples.

Import Executor.

(** A pytest run that passes after 31 time units and leaves a coverage
    report of four statements, all covered, and no branches. *)
Definition slow_pass : process := {|
  duration := Some 31%Q;
  exit := {| returncode := 0; stdout := lit "test_case_0 PASSED"; stderr := [] |};
  coverage_file :=
    Some {[ "percent_covered" := 100%Q; "num_statements" := 4%Q;
            "covered_lines" := 4%Q ]}
|}.

(** A run that never ends. *)
Definition endless : process := {|
  duration := None;
  exit := {| returncode := 0; stdout := []; stderr := [] |};
  coverage_file := None
|}.

(** A pytest run that crashes before any coverage report is written. *)
Definition crashed : process := {|
  duration := Some 1%Q;
  exit := {| returncode := 2; stdout := []; stderr := lit "Traceback" |};
  coverage_file := None
|}.



(** A module of an import and a definition. *)
Definition plain : str :=
  unlines ["import sys"; "def solve():"; "    return 1"].


(** A response that is one tagged block. *)
Definition one_block : str := unlines ["```python"; "x = 1"; "```"].

End Examples.

Import Examples.

(** ** The report of the coverage runner: [CoverageAnalyzer.generate_report] *)

Module Report.

(** What the report can raise on a record. *)
Inductive error :=
  | KeyError (key : string)
  | ValueError
  | TypeError.

(** [result[key]] *)
Definition getitem (r : gmap string pyval) (key : string) : error + pyval :=
  match r !! key with
  | Some v => inr v
  | None => inl (KeyError key)
  end.

(** [v == s] for a text [s]; values of different types are unequal. *)
Definition eq_str (v : pyval) (s : string) : bool :=
  match v with PStr x => String.eqb x s | _ => false end.

(** The number a value stands for in arithmetic and under [isinstance(v,
    (int, float))]: a [bool] is an [int]. *)
Definition number (v : pyval) : option Q :=
  match v with
  | PNum q => Some q
  | PBool b => Some (if b then 1%Q else 0%Q)
  | PStr _ => None
  end.

(** Lines 554-557: the values of one row of the detailed results, before
    padding.  [branch_coverage] is read first; a text for [line_coverage]
    does not take the format [.1f]. *)
Definition row (r : gmap string pyval)
    : error + (pyval * pyval * pyval * Q * pyval) :=
  match getitem r "branch_coverage" with
  | inl e => inl e
  | inr branch =>
  match getitem r "problem" with
  | inl e => inl e
  | inr problem =>
  match getitem r "type" with
  | inl e => inl e
  | inr type =>
  match getitem r "tests_passed" with
  | inl e => inl e
  | inr tests =>
  match getitem r "line_coverage" with
  | inl e => inl e
  | inr line =>
      match number line with
      | Some q => inr (problem, type, tests, q, branch)
      | None => inl ValueError
      end
  end end end end end.

(** [[r for r in results if r['type'] == t]], lines 564-565. *)
Fixpoint of_type (results : list (gmap string pyval)) (t : string)
    : error + list (gmap string pyval) :=
  match results with
  | [] => inr []
  | r :: rest =>
      match getitem r "type" with
      | inl e => inl e
      | inr v =>
          match of_type rest t with
          | inl e => inl e
          | inr selected => inr (if eq_str v t then r :: selected else selected)
          end
      end
  end.

(** [sum(r[key] for r in group)] *)
Fixpoint sum_of (group : list (gmap string pyval)) (key : string)
    : error + Q :=
  match group with
  | [] => inr 0%Q
  | r :: rest =>
      match getitem r key with
      | inl e => inl e
      | inr v =>
          match number v with
          | None => inl TypeError
          | Some q =>
              match sum_of rest key with
              | inl e => inl e
              | inr s => inr (q + s)%Q
              end
          end
      end
  end.

(** [[r['branch_coverage'] for r in group if isinstance(..., (int, float))]] *)
Fixpoint branch_vals (group : list (gmap string pyval)) : error + list Q :=
  match group with
  | [] => inr []
  | r :: rest =>
      match getitem r "branch_coverage" with
      | inl e => inl e
      | inr v =>
          match branch_vals rest with
          | inl e => inl e
          | inr vals =>
              inr (match number v with Some q => q :: vals | None => vals end)
          end
      end
  end.

(** Lines 567-574 (and 576-583): the two averages printed for a group that
    is not empty; nothing is printed for an empty one. *)
Definition averages (group : list (gmap string pyval))
    : error + option (Q * Q) :=
  match group with
  | [] => inr None
  | _ :: _ =>
      match sum_of group "line_coverage" with
      | inl e => inl e
      | inr total =>
          match branch_vals group with
          | inl e => inl e
          | inr vals =>
              let avg_line := (total / inject_Z (Z.of_nat (length group)))%Q in
              let avg_branch :=
                match vals with
                | [] => 0%Q
                | _ :: _ =>
                    (foldr Qplus 0 vals / inject_Z (Z.of_nat (length vals)))%Q
                end in
              inr (Some (avg_line, avg_branch))
          end
      end
  end.

(** Lines 564-583: the summary statistics, for the HumanEval group and for the
    APPS group. *)
Definition summary_statistics (results : list (gmap string pyval))
    : error + (option (Q * Q) * option (Q * Q)) :=
  match of_type results "HumanEval" with
  | inl e => inl e
  | inr humaneval_results =>
  match of_type results "APPS" with
  | inl e => inl e
  | inr apps_results =>
  match averages humaneval_results with
  | inl e => inl e
  | inr h =>
  match averages apps_results with
  | inl e => inl e
  | inr a => inr (h, a)
  end end end end.

End Report.

(** ** Command line of the coverage runner: [main] *)

Module Cli.

(** The [choices] of the positional argument. *)
Definition choices : list string := ["1"; "2"; "original"; "llm"; "both"].

Definition test_type_map : gmap string string :=
  {[ "1" := "original"; "2" := "llm"; "original" := "original";
     "llm" := "llm"; "both" := "both" ]}.

(** Lines 465-466 of [run_all_tests]. *)
Definition run_original (test_type : string) : bool :=
  bool_decide (test_type ∈ ["original"; "both"]).

Definition run_llm (test_type : string) : bool :=
  bool_decide (test_type ∈ ["llm"; "both"]).

End Cli.

(** ** Problem folders *)

Module Folders.

(** [f"{n:03d}"] for an [n] that is not negative: the decimal digits, padded
    with zeros on the left to three characters. *)
Definition fmt_03d (n : nat) : str :=
  let digits := lit (pretty n) in
  replicate (3 - length digits) "0"%char ++ digits.

(** [f"problem_{problem_id:03d}"], the folder of [create_problem_folder] and
    [create_apps_problem_folder]. *)
Definition folder_name (problem_id : nat) : str :=
  lit "problem_" ++ fmt_03d problem_id.

(** [a < b] on texts: by code points, a proper prefix first. *)
Fixpoint str_ltb (a b : str) : bool :=
  match a, b with
  | _, [] => false
  | [], _ :: _ => true
  | x :: a', y :: b' =>
      (nat_of_ascii x <? nat_of_ascii y)
      || ((nat_of_ascii x =? nat_of_ascii y) && str_ltb a' b')
  end.

(** The filter of the runners on a directory entry:
    [item.startswith("problem_")]. *)
Definition is_problem_folder (item : str) : bool :=
  startswith item (lit "problem_").

End Folders.

(** ** The evaluator's run over the problems: [evaluate_problem] and [main] *)

Module Evaluation.

Import Executor.

(** [call_llm], lines 81-139: what the provider returned, stripped, or the
    text made of the exception's message. *)
Definition call_llm (api : str + str) : str :=
  match api with
  | inr content => strip content
  | inl message => lit "API Error: " ++ message
  end.

(** A value of the evaluation record: a plain value or the record of the
    test run. *)
Inductive jval :=
  | JVal (v : pyval)
  | JDict (d : gmap string pyval).

(** Truth value. *)
Definition truthy_val (v : jval) : bool :=
  match v with
  | JVal (PBool b) => b
  | JVal (PNum q) => negb (Qeq_bool q 0)
  | JVal (PStr s) => negb (String.eqb s "")
  | JDict d => negb (bool_decide (d = ∅))
  end.

(** [evaluate_problem], lines 190-270, for a metadata file with [task_id]
    and [entry_point]: [files_exist] says whether the prompt and metadata
    files are there, [api] is what the provider does, [p] the process that
    runs the generated [run_test.py]. *)
Definition evaluate_problem (files_exist : bool)
    (task_id model_name provider : string) (timestamp : Q)
    (api : str + str) (p : process) : call (option (gmap string jval)) :=
  if negb files_exist then Value None
  else
    let llm_response := call_llm api in
    match Evaluator.extract_code llm_response with
    | inl e => Raises e
    | inr llm_code =>
        match run_tests p with
        | Value test_results =>
            Value (Some
              {[ "task_id" := JVal (PStr task_id);
                 "model" := JVal (PStr model_name);
                 "provider" := JVal (PStr provider);
                 "timestamp" := JVal (PNum timestamp);
                 "llm_response" :=
                   JVal (PStr (string_of_list_ascii llm_response));
                 "extracted_code" :=
                   JVal (PStr (string_of_list_ascii llm_code));
                 "test_results" := JDict test_results;
                 "passed" :=
                   JVal (default (PBool false) (test_results !! "success")) ]})
        | Raises e => Raises e
        | Blocked => Blocked
        end
    end.

(** The loop of [main], lines 301-312: an exception of [evaluate_problem] is
    caught and the folder skipped; a record is appended before its [passed]
    is read. *)
Fixpoint main_loop (outcomes : list (call (option (gmap string jval))))
    (results : list (gmap string jval)) (passed_count : nat)
    : call (list (gmap string jval) * nat) :=
  match outcomes with
  | [] => Value (results, passed_count)
  | Blocked :: _ => Blocked
  | Raises _ :: rest => main_loop rest results passed_count
  | Value None :: rest => main_loop rest results passed_count
  | Value (Some result) :: rest =>
      if bool_decide (result = ∅) then main_loop rest results passed_count
      else
        match result !! "passed" with
        | Some v =>
            main_loop rest (results ++ [result])
              (if truthy_val v then S passed_count else passed_count)
        | None => main_loop rest (results ++ [result]) passed_count
        end
  end.

(** Lines 315-320: the failed count of the summary and its pass rate. *)
Definition pass_rate (results : list (gmap string jval)) (passed_count : nat)
    : result Q :=
  match results with
  | [] => ret 0%Q
  | _ :: _ =>
      Aggregator.truediv (inject_Z (Z.of_nat passed_count))
        (inject_Z (Z.of_nat (length results)))
  end.

Definition failed (results : list (gmap string jval)) (passed_count : nat)
    : Z :=
  (Z.of_nat (length results) - Z.of_nat passed_count)%Z.

End Evaluation.

(** ** The test runner of [setup_test.py] *)

Module SetupTest.

Import Executor.

(** [run_test_file], lines 166-181, when [subprocess.run] itself does not
    fail: success, standard output, standard error. *)
Definition run_test_file (p : process) : call (bool * str * str) :=
  match subprocess_run p (Some 30%Q) with
  | Returned r => Value ((returncode r =? 0)%Z, stdout r, stderr r)
  | TimeoutExpired => Value (false, [], lit "Test execution timed out")
  | NeverReturns => Blocked
  end.

(** [main]: the reason recorded for a failure, [stderr if stderr else
    stdout]. *)
Definition failure_reason (out err : str) : str :=
  if truthy err then err else out.

End SetupTest.

(** ** Further notions and inputs *)

Module RecordProps.

Import Executor.

(** The record of a test function of the coverage runner. *)
Definition produced (round1 : Q → Q) (r : gmap string pyval) : Prop :=
  ∃ name llm custom content total p,
    test_apps_problem round1 name llm total p = Value r
    ∨ test_humaneval_problem round1 name llm custom content p = Value r.

End RecordProps.

Module MoreExamples.

Import Executor.

(** A coverage file of four statements, all covered, and no branches. *)
Definition full_summary : gmap string Q :=
  {[ "percent_covered" := 100%Q; "num_statements" := 4%Q;
     "covered_lines" := 4%Q ]}.

(** A coverage file of five statements, four of them covered, and of two
    branches, one of them covered. *)
Definition partial_summary : gmap string Q :=
  {[ "percent_covered" := 80%Q; "num_statements" := 5%Q;
     "covered_lines" := 4%Q; "missing_lines" := 1%Q;
     "num_branches" := 2%Q; "covered_branches" := 1%Q ]}.

(** A response with a tagged block. *)
Definition tagged_response : str :=
  unlines ["```python"; "def f(x):"; "    return x"; "```"].

(** A test run that passes in two time units. *)
Definition quick_pass : process := {|
  duration := Some 2%Q;
  exit := {| returncode := 0; stdout := lit "All tests passed!"; stderr := [] |};
  coverage_file := None
|}.

(** A run that fails at once with the text of a timeout on its standard
    error. *)
Definition fake_timeout : process := {|
  duration := Some 1%Q;
  exit := {| returncode := 1; stdout := [];
             stderr := lit "Test execution timed out" |};
  coverage_file := None
|}.

End MoreExamples.

(** * Properties *)

(** ** Facts about the string operations *)

Module PyStrFacts.

Lemma startswith_prefix s p : startswith s p = true ↔ ∃ r, s = p ++ r.
Proof.
  revert s. induction p as [|a p IH]; intros s; simpl.
  - split; [intros _; by exists s | done].
  - destruct s as [|b s].
    + split; [done | intros [r Hr]; discriminate].
    + rewrite andb_true_iff, Ascii.eqb_eq, IH. split.
      * intros [-> [r ->]]. by exists r.
      * intros [r Hr]. injection Hr as -> ->. eauto.
Qed.

Lemma startswith_app s t p : startswith s p = true → startswith (s ++ t) p = true.
Proof.
  rewrite !startswith_prefix. intros [r ->]. exists (r ++ t). by rewrite app_assoc.
Qed.

Lemma startswith_self p r : startswith (p ++ r) p = true.
Proof. apply startswith_prefix. by exists r. Qed.

Lemma startswith_nil p : p ≠ [] → startswith [] p = false.
Proof. by destruct p. Qed.

Lemma startswith_short s p : length s < length p → startswith s p = false.
Proof.
  intros Hlen. destruct (startswith s p) eqn:E; [|done].
  apply startswith_prefix in E as [r ->]. rewrite length_app in Hlen. lia.
Qed.

(** Only the first [length p] characters matter. *)
Lemma startswith_app_long s t p :
  length p ≤ length s → startswith (s ++ t) p = startswith s p.
Proof.
  revert s. induction p as [|a p IH]; intros s Hlen; [done|].
  destruct s as [|b s]; simpl in *; [lia|].
  rewrite IH; [done | lia].
Qed.

Lemma startswith_trans s p q :
  startswith s p = true → startswith p q = true → startswith s q = true.
Proof.
  rewrite !startswith_prefix. intros [r ->] [r' ->].
  exists (r' ++ r). by rewrite app_assoc.
Qed.

(** *** [find] *)

Lemma find_in_Some s sub i j :
  find_in s sub i = Some j →
  ∃ k, j = i + k ∧ k ≤ length s ∧ occurs s sub k
       ∧ ∀ k', k' < k → startswith (drop k' s) sub = false.
Proof.
  revert i. induction s as [|c s IH]; intros i; simpl.
  - destruct (startswith [] sub) eqn:E; [|done].
    intros [= <-]. exists 0. unfold occurs. simpl. repeat split; [lia | lia | done | lia].
  - destruct (startswith (c :: s) sub) eqn:E.
    + intros [= <-]. exists 0. unfold occurs. simpl. repeat split; [lia | lia | done | lia].
    + intros H. apply IH in H as (k & -> & Hk & Hocc & Hfirst).
      exists (S k). unfold occurs in *. simpl. repeat split; [lia | lia | done |].
      intros [|k'] Hlt; simpl; [done | apply Hfirst; lia].
Qed.

Lemma find_in_None s sub i : find_in s sub i = None → absent sub s.
Proof.
  revert i. induction s as [|c s IH]; intros i; simpl.
  - destruct (startswith [] sub) eqn:E; [done|].
    intros _ k. by rewrite drop_nil.
  - destruct (startswith (c :: s) sub) eqn:E; [done|].
    intros H [|k]; simpl; [done | by eapply IH].
Qed.

Lemma find_in_first s sub i k :
  occurs s sub k → k ≤ length s →
  (∀ k', k' < k → startswith (drop k' s) sub = false) →
  find_in s sub i = Some (i + k).
Proof.
  revert i k. induction s as [|c s IH]; intros i k Hocc Hk Hfirst.
  - simpl in Hk. assert (k = 0) as -> by lia. unfold occurs in Hocc.
    simpl in *. rewrite Hocc. f_equal. lia.
  - destruct k as [|k].
    + unfold occurs in Hocc. simpl in *. rewrite Hocc. f_equal. lia.
    + pose proof (Hfirst 0 ltac:(lia)) as H0. simpl in H0. simpl. rewrite H0.
      rewrite (IH (S i) k); [f_equal; lia | done | simpl in Hk; lia |].
      intros k' Hlt. apply (Hfirst (S k')). lia.
Qed.


Lemma contains_false sub s : sub ≠ [] → contains sub s = false ↔ absent sub s.
Proof.
  intros Hne. unfold contains. destruct (find_in s sub 0) eqn:E.
  - apply find_in_Some in E as (k & _ & Hk & Hocc & _). split; [done|].
    intros Habs. unfold occurs in Hocc. by rewrite Habs in Hocc.
  - split; [intros _; by eapply find_in_None | done].
Qed.

(** The first occurrence at or after [st]. *)
Lemma find_first s sub st k :
  st ≤ k → k ≤ length s → occurs s sub k →
  (∀ k', st ≤ k' → k' < k → startswith (drop k' s) sub = false) →
  find s sub (Z.of_nat st) = Z.of_nat k.
Proof.
  intros Hst Hk Hocc Hfirst. unfold find.
  destruct (Z.ltb_spec (Z.of_nat st) 0) as [?|_]; [lia|].
  rewrite Nat2Z.id.
  destruct (Nat.leb_spec st (length s)) as [_|?]; [|lia].
  rewrite (find_in_first _ _ st (k - st)).
  - f_equal. lia.
  - unfold occurs. rewrite drop_drop. by replace (st + (k - st)) with k by lia.
  - rewrite length_drop. lia.
  - intros k' Hlt. rewrite drop_drop. apply Hfirst; lia.
Qed.

Lemma find_none s sub st :
  (∀ k, st ≤ k → startswith (drop k s) sub = false) →
  find s sub (Z.of_nat st) = (-1)%Z.
Proof.
  intros Habs. unfold find.
  destruct (Z.ltb_spec (Z.of_nat st) 0) as [?|_]; [lia|].
  rewrite Nat2Z.id.
  destruct (Nat.leb_spec st (length s)) as [Hle|?]; [|done].
  destruct (find_in (drop st s) sub st) eqn:E; [|done].
  apply find_in_Some in E as (k & _ & _ & Hocc & _).
  unfold occurs in Hocc. rewrite drop_drop, Habs in Hocc; [done | lia].
Qed.

(** What [find] returns from a start that is not negative. *)
Lemma find_cases s sub st :
  find s sub (Z.of_nat st) = (-1)%Z
  ∨ ∃ k, find s sub (Z.of_nat st) = Z.of_nat k ∧ st ≤ k ∧ k ≤ length s
         ∧ occurs s sub k
         ∧ ∀ k', st ≤ k' → k' < k → startswith (drop k' s) sub = false.
Proof.
  unfold find.
  destruct (Z.ltb_spec (Z.of_nat st) 0) as [?|_]; [lia|].
  rewrite Nat2Z.id.
  destruct (Nat.leb_spec st (length s)) as [Hle|?]; [|by left].
  destruct (find_in (drop st s) sub st) eqn:E; [|by left].
  apply find_in_Some in E as (k & -> & Hk & Hocc & Hfirst).
  rewrite length_drop in Hk.
  right. exists (st + k). unfold occurs in *. rewrite drop_drop in Hocc.
  repeat split; [lia | lia | done |].
  intros k' H1 H2. specialize (Hfirst (k' - st)).
  rewrite drop_drop in Hfirst. replace (st + (k' - st)) with k' in Hfirst by lia.
  apply Hfirst. lia.
Qed.

(** *** [strip] *)

Lemma lstrip_drop s : ∃ n, lstrip s = drop n s.
Proof.
  induction s as [|c s [n IH]]; simpl; [by exists 0|].
  destruct (isspace c); [by exists (S n) | by exists 0].
Qed.

Lemma rstrip_take s : ∃ n, rstrip s = take n s.
Proof.
  unfold rstrip. destruct (lstrip_drop (rev s)) as [n ->].
  exists (length s - n). by rewrite skipn_rev, rev_involutive.
Qed.

(** A stripped text is a piece of the text. *)
Lemma strip_infix s : ∃ pre post, s = pre ++ strip s ++ post.
Proof.
  unfold strip. destruct (lstrip_drop s) as [n Hn].
  destruct (rstrip_take (lstrip s)) as [m Hm].
  exists (take n s), (drop m (lstrip s)).
  rewrite Hm, take_drop, Hn. by rewrite take_drop.
Qed.

Lemma lstrip_id c s : isspace c = false → lstrip (c :: s) = c :: s.
Proof. intros H. simpl. by rewrite H. Qed.

(** *** Occurrences in pieces and in concatenations *)

Lemma absent_nonempty sub s : absent sub s → sub ≠ [].
Proof. intros H ->. specialize (H 0). by destruct s. Qed.

Lemma absent_nil sub : sub ≠ [] → absent sub [].
Proof. intros H k. rewrite drop_nil. by apply startswith_nil. Qed.

Lemma absent_infix sub a x b : absent sub (a ++ x ++ b) → absent sub x.
Proof.
  intros H k. destruct (startswith (drop k x) sub) eqn:E; [|done].
  destruct (Nat.le_gt_cases k (length x)) as [Hk|Hk].
  - specialize (H (length a + k)).
    rewrite <- drop_drop, drop_app_length, drop_app_le in H by done.
    by rewrite (startswith_app _ _ _ E) in H.
  - rewrite drop_ge in E by lia.
    pose proof (absent_nonempty _ _ H). by rewrite startswith_nil in E.
Qed.

Lemma absent_drop sub s n : absent sub s → absent sub (drop n s).
Proof. intros H k. rewrite drop_drop. apply H. Qed.

Lemma absent_strip sub s : absent sub s → absent sub (strip s).
Proof.
  intros H. destruct (strip_infix s) as (pre & post & Heq).
  rewrite Heq in H. by eapply absent_infix.
Qed.

(** A piece cut before the first occurrence at or after its start. *)
Lemma absent_take_drop sub s st n :
  sub ≠ [] →
  (∀ k, st ≤ k → k < st + n → startswith (drop k s) sub = false) →
  absent sub (take n (drop st s)).
Proof.
  intros Hne Hfirst k.
  destruct (startswith (drop k (take n (drop st s))) sub) eqn:E; [|done].
  destruct (Nat.le_gt_cases n k) as [Hk|Hk].
  - rewrite drop_ge in E; [by rewrite startswith_nil in E|].
    rewrite length_take. lia.
  - specialize (Hfirst (st + k) ltac:(lia) ltac:(lia)).
    rewrite <- drop_drop in Hfirst.
    rewrite <- (take_drop n (drop st s)) in Hfirst.
    destruct (Nat.le_gt_cases k (length (take n (drop st s)))) as [Hle|Hgt].
    + rewrite drop_app_le in Hfirst by done.
      by rewrite (startswith_app _ _ _ E) in Hfirst.
    + rewrite drop_ge in E by lia. by rewrite startswith_nil in E.
Qed.

(** An occurrence of a longer text is one of each of its prefixes. *)
Lemma absent_prefix sub sub' s :
  startswith sub' sub = true → sub ≠ [] → absent sub s → absent sub' s.
Proof.
  intros Hpre Hne H k. destruct (startswith (drop k s) sub') eqn:E; [|done].
  specialize (H k). by rewrite (startswith_trans _ _ _ E Hpre) in H.
Qed.

(** *** [split] and [join] *)

Lemma split_nonempty s sep : split s sep ≠ [].
Proof.
  induction s as [|c s IH]; simpl; [done|].
  destruct (Ascii.eqb c sep); [done|]. by destruct (split s sep).
Qed.

Lemma join_cons sep p q ps : join sep (p :: q :: ps) = p ++ sep ++ join sep (q :: ps).
Proof. done. Qed.

Lemma join_split s sep : join [sep] (split s sep) = s.
Proof.
  induction s as [|c s IH]; [done|]. cbn [split].
  pose proof (split_nonempty s sep) as Hne.
  destruct (split s sep) as [|l ls]; [done|].
  destruct (Ascii.eqb_spec c sep) as [->|_].
  - rewrite join_cons, IH. done.
  - destruct ls as [|l' ls].
    + simpl in *. by rewrite IH.
    + rewrite join_cons in *. by rewrite <- IH.
Qed.

Lemma split_no_sep s sep : Forall (λ l, sep ∉ l) (split s sep).
Proof.
  induction s as [|c s IH]; cbn [split].
  - apply Forall_singleton, not_elem_of_nil.
  - destruct (Ascii.eqb_spec c sep) as [->|Hne].
    + apply Forall_cons. split; [apply not_elem_of_nil | done].
    + assert (sep ≠ c) as Hne' by congruence.
      destruct (split s sep) as [|l ls].
      * apply Forall_singleton, not_elem_of_cons. split; [done | apply not_elem_of_nil].
      * apply Forall_cons in IH as [Hl Hls].
        apply Forall_cons. split; [by apply not_elem_of_cons | done].
Qed.

Lemma split_one l sep : sep ∉ l → split l sep = [l].
Proof.
  induction l as [|c l IH]; intros Hnot; simpl; [done|].
  destruct (Ascii.eqb_spec c sep) as [->|Hne]; [set_solver|].
  rewrite IH; [done | set_solver].
Qed.

Lemma split_app_sep l r sep :
  sep ∉ l → split (l ++ [sep] ++ r) sep = l :: split r sep.
Proof.
  induction l as [|c l IH]; intros Hnot; simpl.
  - by rewrite Ascii.eqb_refl.
  - destruct (Ascii.eqb_spec c sep) as [->|Hne]; [set_solver|].
    simpl in IH. rewrite IH; [done | set_solver].
Qed.

Lemma split_join ls sep :
  ls ≠ [] → Forall (λ l, sep ∉ l) ls → split (join [sep] ls) sep = ls.
Proof.
  induction ls as [|l ls IH]; intros Hne Hall; [done|].
  apply Forall_cons in Hall as [Hl Hls].
  destruct ls as [|l' ls]; [by apply split_one|].
  rewrite join_cons, split_app_sep by done.
  by rewrite IH.
Qed.

(** An occurrence of a text without the separator lies in one part. *)
Lemma startswith_app_sep x sep b sub :
  sep ∉ sub → startswith (x ++ sep :: b) sub = startswith x sub.
Proof.
  revert x. induction sub as [|a sub IH]; intros x Hnot; [done|].
  destruct x as [|c x]; simpl.
  - destruct (Ascii.eqb_spec sep a) as [->|Hne]; [set_solver | done].
  - rewrite IH; [done | set_solver].
Qed.

Lemma absent_app_sep sub a sep b :
  sep ∉ sub → absent sub a → absent sub b → absent sub (a ++ sep :: b).
Proof.
  intros Hnot Ha Hb k.
  destruct (Nat.le_gt_cases k (length a)) as [Hk|Hk].
  - rewrite drop_app_le by done. rewrite startswith_app_sep by done. apply Ha.
  - rewrite drop_app_ge by lia.
    destruct (k - length a) as [|n] eqn:E; [lia|]. simpl. apply Hb.
Qed.

Lemma absent_join sub sep ls :
  sub ≠ [] → sep ∉ sub → Forall (absent sub) ls → absent sub (join [sep] ls).
Proof.
  intros Hne Hnot. induction ls as [|l ls IH]; intros Hall.
  - by apply absent_nil.
  - apply Forall_cons in Hall as [Hl Hls].
    destruct ls as [|l' ls]; [done|].
    rewrite join_cons. apply absent_app_sep; auto.
Qed.

Lemma absent_join_inv sub sep ls :
  absent sub (join [sep] ls) → Forall (absent sub) ls.
Proof.
  induction ls as [|l ls IH]; intros H; [constructor|].
  destruct ls as [|l' ls]; [by repeat constructor|].
  rewrite join_cons in H. constructor.
  - apply (absent_infix sub [] l ([sep] ++ join [sep] (l' :: ls))). done.
  - apply IH. apply (absent_infix sub (l ++ [sep]) _ []).
    by rewrite app_nil_r, <- app_assoc.
Qed.

Lemma absent_split sub s sep : absent sub s → Forall (absent sub) (split s sep).
Proof. intros H. apply (absent_join_inv sub sep). by rewrite join_split. Qed.

End PyStrFacts.

(** ** The normalizer *)

Module NormalizerFacts.

Import PyStrFacts Normalizer.

Lemma fence_nonempty : fence ≠ [].
Proof. done. Qed.

Lemma fence_no_nl : nl ∉ fence.
Proof. unfold fence, nl. simpl. rewrite !not_elem_of_cons. repeat split; try done. apply not_elem_of_nil. Qed.

Lemma fence_python_fence : startswith fence_python fence = true.
Proof. reflexivity. Qed.

Lemma clamp_nat len n : clamp len (Z.of_nat n) = Nat.min n len.
Proof.
  unfold clamp. destruct (Z.ltb_spec (Z.of_nat n) 0); [lia|].
  by rewrite Nat2Z.id.
Qed.

Lemma strip_fences_interior code :
  strip_fences code =
    if contains fence_python code
    then interior code (find code fence_python 0 + 9)
    else if contains fence code
         then interior code (find code fence 0 + 3)
         else code.
Proof. reflexivity. Qed.

Lemma find_absent_from s sub st :
  sub ≠ [] → find s sub (Z.of_nat st) = (-1)%Z →
  ∀ k, st ≤ k → startswith (drop k s) sub = false.
Proof.
  intros Hne Hf k Hk.
  destruct (find_cases s sub st) as [_|(j & Hj & _)]; [|lia].
  unfold find in Hf.
  destruct (Z.ltb_spec (Z.of_nat st) 0) as [?|_]; [lia|].
  rewrite Nat2Z.id in Hf.
  destruct (Nat.leb_spec st (length s)) as [Hle|Hgt].
  - destruct (find_in (drop st s) sub st) eqn:E; [lia|].
    apply find_in_None in E. specialize (E (k - st)).
    rewrite drop_drop in E. by replace (st + (k - st)) with k in E by lia.
  - rewrite drop_ge by lia. by apply startswith_nil.
Qed.

Lemma interior_absent code st : absent fence (interior code (Z.of_nat st)).
Proof.
  unfold interior.
  destruct (find_cases code fence st) as [Hf|(k & Hf & Hst & Hk & Hocc & Hfirst)];
    rewrite Hf.
  - simpl. apply absent_strip. unfold slice_from. rewrite clamp_nat.
    intros k. rewrite drop_drop.
    destruct (Nat.le_gt_cases st (length code)).
    + apply (find_absent_from _ _ st); [done | done | lia].
    + rewrite drop_ge by lia. done.
  - destruct (Z.eqb_spec (Z.of_nat k) (-1)) as [?|_]; [lia|]. simpl.
    apply absent_strip. unfold slice. rewrite !clamp_nat.
    rewrite !Nat.min_l by lia.
    apply absent_take_drop; [done|].
    intros k' H1 H2. apply Hfirst; lia.
Qed.

Lemma find_nonneg_start s sub : (-1 ≤ find s sub 0)%Z.
Proof.
  change 0%Z with (Z.of_nat 0).
  destruct (find_cases s sub 0) as [Hf|(k & Hf & _)]; rewrite Hf; lia.
Qed.

(** The text left by the first stage has no fence. *)
Lemma strip_fences_absent code :
  contains fence code = true → absent fence (strip_fences code).
Proof.
  intros Hc. rewrite strip_fences_interior, Hc.
  destruct (contains fence_python code).
  - pose proof (find_nonneg_start code fence_python).
    rewrite <- (Z2Nat.id (find code fence_python 0 + 9)) by lia.
    apply interior_absent.
  - pose proof (find_nonneg_start code fence).
    rewrite <- (Z2Nat.id (find code fence 0 + 3)) by lia.
    apply interior_absent.
Qed.

(** A text without a fence passes the first stage unchanged. *)
Lemma strip_fences_id code : absent fence code → strip_fences code = code.
Proof.
  intros H. rewrite strip_fences_interior.
  assert (contains fence code = false) as -> by by apply contains_false.
  assert (contains fence_python code = false) as ->; [|done].
  apply contains_false; [done|].
  by apply (absent_prefix fence).
Qed.

(** *** Re-indentation *)

Lemma fix_line_cases line :
  fix_line line = line
  ∨ (fix_line line = indent4 ++ strip line ∧ truthy (strip line) = true).
Proof.
  unfold fix_line. destruct (truthy (strip line)); [|by left].
  destruct (negb (startswith line indent4) && negb (startswith line [tab]));
    [by right | by left].
Qed.

Lemma fix_line_indented line :
  startswith line indent4 = true → fix_line line = line.
Proof.
  intros H. unfold fix_line. rewrite H. simpl.
  destruct (truthy (strip line)); reflexivity.
Qed.

Lemma fix_line_idem line : fix_line (fix_line line) = fix_line line.
Proof.
  destruct (fix_line_cases line) as [H|[H _]]; [by rewrite !H|].
  rewrite H. apply fix_line_indented, startswith_self.
Qed.

Lemma not_elem_of_strip c s : c ∉ s → c ∉ strip s.
Proof.
  intros H Hin. destruct (strip_infix s) as (pre & post & Heq).
  apply H. rewrite Heq. rewrite !elem_of_app. auto.
Qed.

Lemma fix_line_no_nl line : nl ∉ line → nl ∉ fix_line line.
Proof.
  intros H. destruct (fix_line_cases line) as [->|[-> _]]; [done|].
  rewrite not_elem_of_app. split; [|by apply not_elem_of_strip].
  unfold indent4, nl. simpl. rewrite !not_elem_of_cons.
  repeat split; try done. apply not_elem_of_nil.
Qed.

Lemma absent_indent4 x : absent fence x → absent fence (indent4 ++ x).
Proof.
  intros H k. do 4 (destruct k as [|k]; [done|]). simpl. apply H.
Qed.

Lemma fix_line_absent line : absent fence line → absent fence (fix_line line).
Proof.
  intros H. destruct (fix_line_cases line) as [->|[-> _]]; [done|].
  by apply absent_indent4, absent_strip.
Qed.

(** The lines of a re-indented text. *)
Lemma fix_indentation_lines code line0 rest :
  split code nl = line0 :: rest →
  startswith (strip line0) def_kw = true →
  split (fix_indentation code) nl = line0 :: map fix_line rest.
Proof.
  intros Hs Hd. unfold fix_indentation. rewrite Hs, Hd.
  apply split_join; [done|].
  pose proof (split_no_sep code nl) as Hall. rewrite Hs in Hall.
  apply Forall_cons in Hall as [H0 Hrest].
  apply Forall_cons. split; [done|].
  apply Forall_map. eapply Forall_impl; [exact Hrest|].
  intros l. apply fix_line_no_nl.
Qed.

Lemma fix_indentation_other code line0 rest :
  split code nl = line0 :: rest →
  startswith (strip line0) def_kw = false →
  fix_indentation code = code.
Proof. intros Hs Hd. unfold fix_indentation. by rewrite Hs, Hd. Qed.

Lemma fix_indentation_idem code :
  fix_indentation (fix_indentation code) = fix_indentation code.
Proof.
  destruct (split code nl) as [|line0 rest] eqn:Hs;
    [by apply split_nonempty in Hs|].
  destruct (startswith (strip line0) def_kw) eqn:Hd.
  - pose proof (fix_indentation_lines _ _ _ Hs Hd) as Hl.
    unfold fix_indentation at 1. rewrite Hl, Hd.
    unfold fix_indentation. rewrite Hs, Hd.
    do 2 f_equal. rewrite map_map. apply map_ext. intros l. apply fix_line_idem.
  - by rewrite !(fix_indentation_other _ _ _ Hs Hd).
Qed.

Lemma fix_indentation_absent code :
  absent fence code → absent fence (fix_indentation code).
Proof.
  intros H. unfold fix_indentation.
  destruct (split code nl) as [|line0 rest] eqn:Hs; [done|].
  destruct (startswith (strip line0) def_kw); [|done].
  apply absent_join; [done | apply fence_no_nl |].
  pose proof (absent_split fence code nl H) as Hall. rewrite Hs in Hall.
  apply Forall_cons in Hall as [H0 Hrest].
  apply Forall_cons. split; [done|].
  apply Forall_map. eapply Forall_impl; [exact Hrest|].
  intros l. apply fix_line_absent.
Qed.

(** The normalizer leaves no fence behind, unless the text had none to start
    with and is returned by the first stage as it is. *)
Lemma clean_second_stage code :
  strip_fences (clean_llm_response code) = clean_llm_response code.
Proof.
  unfold clean_llm_response.
  destruct (contains fence code) eqn:Hc.
  - apply strip_fences_id, fix_indentation_absent. by apply strip_fences_absent.
  - apply contains_false in Hc; [|done].
    rewrite (strip_fences_id code Hc).
    by apply strip_fences_id, fix_indentation_absent.
Qed.

End NormalizerFacts.

(** ** Fenced blocks *)

Module FenceFacts.

Import PyStrFacts Normalizer NormalizerFacts.

Lemma first_at_here sub pre rest :
  (∀ k, k < length pre → startswith (drop k (pre ++ sub ++ rest)) sub = false) →
  first_at sub (pre ++ sub ++ rest) (length pre).
Proof.
  intros H. split; [|done]. unfold occurs.
  rewrite drop_app_length. apply startswith_self.
Qed.



Lemma interior_closed code st body post :
  st ≤ length code → drop st code = body ++ fence ++ post →
  closed_by_next body →
  interior code (Z.of_nat st) = strip body.
Proof.
  intros Hst Hdrop Hclosed. unfold interior.
  assert (length code = st + (length body + (3 + length post))) as Hlen.
  { rewrite <- (take_drop st code), Hdrop, !length_app, length_take.
    change (length fence) with 3. lia. }
  assert (find code fence (Z.of_nat st) = Z.of_nat (st + length body)) as ->.
  { apply find_first; [lia | lia | |].
    - unfold occurs. rewrite <- drop_drop, Hdrop, drop_app_length.
      apply startswith_self.
    - intros k H1 H2. replace k with (st + (k - st)) by lia.
      rewrite <- drop_drop, Hdrop, drop_app_le by lia.
      specialize (Hclosed (k - st) ltac:(lia)).
      rewrite drop_app_le in Hclosed by lia.
      rewrite app_assoc, startswith_app_long; [done|].
      rewrite length_app. change (length fence) with 3. lia. }
  destruct (Z.eqb_spec (Z.of_nat (st + length body)) (-1)) as [?|_]; [lia|].
  simpl. unfold slice. rewrite !clamp_nat, !Nat.min_l by lia.
  rewrite Hdrop. replace (st + length body - st) with (length body) by lia.
  by rewrite take_app_length.
Qed.

Lemma interior_open code st :
  st ≤ length code → absent fence (drop st code) →
  interior code (Z.of_nat st) = strip (drop st code).
Proof.
  intros Hst Habs. unfold interior.
  rewrite find_none.
  - simpl. unfold slice_from. by rewrite clamp_nat, Nat.min_l.
  - intros k Hk. specialize (Habs (k - st)). rewrite drop_drop in Habs.
    by replace (st + (k - st)) with k in Habs by lia.
Qed.





End FenceFacts.

Module StripFacts.

Import PyStrFacts.

Lemma lstrip_idem s : lstrip (lstrip s) = lstrip s.
Proof.
  induction s as [|c s IH]; [done|]. simpl.
  destruct (isspace c) eqn:E; [done|]. simpl. by rewrite E.
Qed.

Lemma rstrip_idem s : rstrip (rstrip s) = rstrip s.
Proof. unfold rstrip. by rewrite rev_involutive, lstrip_idem. Qed.

(** A text without leading white space keeps none when its end is cut. *)
Lemma lstrip_take s n : lstrip s = s → lstrip (take n s) = take n s.
Proof.
  destruct s as [|c s]; [by rewrite take_nil|].
  destruct n as [|n]; [done|]. simpl.
  destruct (isspace c) eqn:E; [|done].
  intros H. exfalso.
  destruct (lstrip_drop s) as [m Hm]. rewrite Hm in H.
  apply (f_equal length) in H. rewrite length_drop in H. simpl in H. lia.
Qed.

Lemma lstrip_rstrip s : lstrip s = s → lstrip (rstrip s) = rstrip s.
Proof. destruct (rstrip_take s) as [n ->]. apply lstrip_take. Qed.

Lemma strip_idem s : strip (strip s) = strip s.
Proof.
  unfold strip. rewrite (lstrip_rstrip (lstrip s)) by apply lstrip_idem.
  apply rstrip_idem.
Qed.

Lemma strip_indent4 s : strip (Normalizer.indent4 ++ s) = strip s.
Proof. reflexivity. Qed.

End StripFacts.

Module ReindentFacts.

Import PyStrFacts Normalizer NormalizerFacts StripFacts.

Lemma fix_line_blank line : blank line = true → fix_line line = line.
Proof.
  unfold blank, fix_line. by destruct (truthy (strip line)).
Qed.

Lemma fix_line_strip line : strip (fix_line line) = strip line.
Proof.
  destruct (fix_line_cases line) as [->|[-> _]]; [done|].
  by rewrite strip_indent4, strip_idem.
Qed.

Lemma fix_line_keeps_blank line : blank (fix_line line) = blank line.
Proof. unfold blank. by rewrite fix_line_strip. Qed.

Lemma fix_line_indents line :
  blank line = false → indented (fix_line line) = true.
Proof.
  unfold blank, fix_line, indented. destruct (truthy (strip line)); [|done].
  intros _.
  destruct (startswith line indent4) eqn:E1; cbn [negb andb];
    [by rewrite E1|].
  destruct (startswith line [tab]) eqn:E2; cbn [negb andb];
    [by rewrite E1, E2|].
  by rewrite startswith_self.
Qed.

Lemma fix_line_keeps_indented line :
  indented line = true → fix_line line = line.
Proof.
  unfold indented, fix_line. intros H.
  destruct (truthy (strip line)); [|done].
  destruct (startswith line indent4), (startswith line [tab]); done.
Qed.

Lemma fix_line_reindents line :
  blank line = false → indented line = false →
  fix_line line = indent4 ++ strip line.
Proof.
  unfold blank, indented, fix_line. intros Hb Hi.
  destruct (truthy (strip line)); [|done].
  apply orb_false_iff in Hi as [-> ->]. done.
Qed.

End ReindentFacts.

(** ** Code extraction of the evaluator *)

Module EvaluatorFacts.

Import PyStrFacts Normalizer NormalizerFacts FenceFacts Evaluator.

(** Lowering a character neither makes nor unmakes a backquote, so the
    fences of the lowered text are those of the text. *)
Lemma lower_char_backquote c :
  Ascii.eqb (lower_char c) "`" = Ascii.eqb c "`".
Proof. destruct c as [[] [] [] [] [] [] [] []]; reflexivity. Qed.

Lemma startswith_lower_fence s : startswith (lower s) fence = startswith s fence.
Proof.
  unfold lower, fence.
  destruct s as [|a [|b [|c s]]]; simpl; rewrite ?lower_char_backquote;
    reflexivity.
Qed.

Lemma find_in_lower_fence s i : find_in (lower s) fence i = find_in s fence i.
Proof.
  revert i. induction s as [|c s IH]; intros i; [done|].
  change (lower (c :: s)) with (lower_char c :: lower s).
  cbn [find_in].
  change (lower_char c :: lower s) with (lower (c :: s)).
  rewrite startswith_lower_fence. by rewrite IH.
Qed.

Lemma find_lower_fence s start : find (lower s) fence start = find s fence start.
Proof.
  unfold find, lower. rewrite !length_map.
  set (st := if (start <? 0)%Z
             then Z.to_nat (Z.max 0 (Z.of_nat (length s) + start))
             else Z.to_nat start).
  destruct (st <=? length s); [|done].
  rewrite skipn_map.
  pose proof (find_in_lower_fence (drop st s) st) as H.
  unfold lower in H. by rewrite H.
Qed.

(** Without a tagged fence the [elif] condition is evaluated and reads the
    unbound local, fence or no fence, whatever [str.lower] does. *)
Lemma extract_code_with_untagged str_lower llm_response :
  contains fence_python llm_response = false →
  extract_code_with str_lower llm_response
  = raise (UnboundLocalError "lower_llm_response").
Proof. intros H. unfold extract_code_with. by rewrite H. Qed.

(** With a tagged fence it returns, whatever [str.lower] does. *)
Lemma extract_code_with_returns str_lower llm_response :
  contains fence_python llm_response = true →
  ∃ code, extract_code_with str_lower llm_response = ret code.
Proof.
  intros H. unfold extract_code_with. rewrite H. cbn [read_local bind ret].
  destruct (negb _); eauto.
Qed.

(** What it returns is trimmed. *)
Lemma extract_code_with_trimmed str_lower llm_response code :
  extract_code_with str_lower llm_response = ret code → strip code = code.
Proof.
  unfold extract_code_with.
  destruct (contains fence_python llm_response); [|discriminate].
  cbn [read_local bind ret].
  destruct (negb _); intros [= <-]; apply StripFacts.strip_idem.
Qed.

(** When the fence that follows the tag is found in the lowered text where
    the text has it, the result is the interior of the text from the offset
    found for the tag. *)
Lemma extract_code_with_interior str_lower llm_response :
  contains fence_python llm_response = true →
  find (str_lower llm_response) fence
    (find (str_lower llm_response) fence_python 0 + 9)
  = find llm_response fence
      (find (str_lower llm_response) fence_python 0 + 9) →
  extract_code_with str_lower llm_response
  = ret (interior llm_response
           (find (str_lower llm_response) fence_python 0 + 9)).
Proof.
  intros H Hf. unfold extract_code_with, interior. rewrite H.
  cbn [read_local bind ret].
  change (Z.of_nat (length fence_python)) with 9%Z. rewrite Hf.
  by destruct (negb _).
Qed.

(** The offset of the first tag of the lowered text. *)
Lemma find_first_tag lowered n :
  first_at fence_python lowered n →
  find lowered fence_python 0 = Z.of_nat n.
Proof.
  intros [Hocc Hno]. change 0%Z with (Z.of_nat 0).
  apply find_first; [lia | | done |].
  - destruct (Nat.le_gt_cases n (length lowered)); [done|].
    unfold occurs in Hocc. rewrite drop_ge in Hocc by lia.
    by rewrite startswith_nil in Hocc.
  - intros k _ Hk. by apply Hno.
Qed.

(** A closed block: the tag of the text, in whatever letter case, stands
    where the lowered text has its first tag, and the fence after it is found
    in the lowered text where the text has it. *)
Lemma extract_code_with_closed str_lower pre tag body post :
  contains fence_python (pre ++ tag ++ body ++ fence ++ post) = true →
  length tag = length fence_python →
  first_at fence_python
    (str_lower (pre ++ tag ++ body ++ fence ++ post)) (length pre) →
  find (str_lower (pre ++ tag ++ body ++ fence ++ post)) fence
    (Z.of_nat (length pre + length tag))
  = find (pre ++ tag ++ body ++ fence ++ post) fence
      (Z.of_nat (length pre + length tag)) →
  closed_by_next body →
  extract_code_with str_lower (pre ++ tag ++ body ++ fence ++ post)
  = ret (strip body).
Proof.
  intros Hc Hlen Hfirst Hf Hclosed.
  pose proof (find_first_tag _ _ Hfirst) as Htag.
  assert ((Z.of_nat (length pre) + 9)%Z = Z.of_nat (length pre + length tag))
    as Hst by (rewrite Hlen; simpl; lia).
  rewrite extract_code_with_interior; rewrite ?Htag, ?Hst; [|done..].
  f_equal. apply (interior_closed _ _ body post); [| |done].
  - rewrite !length_app. lia.
  - rewrite <- drop_drop, drop_app_length. apply drop_app_length.
Qed.

(** A block that is never closed. *)
Lemma extract_code_with_open str_lower pre tag rest :
  contains fence_python (pre ++ tag ++ rest) = true →
  length tag = length fence_python →
  first_at fence_python (str_lower (pre ++ tag ++ rest)) (length pre) →
  find (str_lower (pre ++ tag ++ rest)) fence
    (Z.of_nat (length pre + length tag))
  = find (pre ++ tag ++ rest) fence (Z.of_nat (length pre + length tag)) →
  absent fence rest →
  extract_code_with str_lower (pre ++ tag ++ rest) = ret (strip rest).
Proof.
  intros Hc Hlen Hfirst Hf Habs.
  pose proof (find_first_tag _ _ Hfirst) as Htag.
  assert ((Z.of_nat (length pre) + 9)%Z = Z.of_nat (length pre + length tag))
    as Hst by (rewrite Hlen; simpl; lia).
  rewrite extract_code_with_interior; rewrite ?Htag, ?Hst; [|done..].
  f_equal.
  assert (drop (length pre + length tag) (pre ++ tag ++ rest) = rest)
    as Hdrop.
  { rewrite <- drop_drop, drop_app_length. apply drop_app_length. }
  rewrite interior_open; rewrite ?Hdrop; [done | | done].
  rewrite !length_app. lia.
Qed.

(** When lowering moves no fence, what is returned has no fence left. *)
Lemma extract_code_with_absent str_lower llm_response code :
  (∀ start, find (str_lower llm_response) fence start
            = find llm_response fence start) →
  extract_code_with str_lower llm_response = ret code →
  absent fence code.
Proof.
  intros Hf H.
  destruct (contains fence_python llm_response) eqn:Hc;
    [|by rewrite (extract_code_with_untagged _ _ Hc) in H].
  rewrite (extract_code_with_interior _ _ Hc (Hf _)) in H.
  injection H as <-.
  pose proof (find_nonneg_start (str_lower llm_response) fence_python).
  rewrite <- (Z2Nat.id (find (str_lower llm_response) fence_python 0 + 9))
    by lia.
  apply interior_absent.
Qed.

(** *** The texts of the model *)

Lemma extract_code_interior llm_response :
  contains fence_python llm_response = true →
  extract_code llm_response
  = ret (interior llm_response
           (find (lower llm_response) fence_python 0 + 9)).
Proof.
  intros H. apply extract_code_with_interior; [done|].
  apply find_lower_fence.
Qed.

Lemma extract_code_tagged_closed pre tag body post :
  contains fence_python (pre ++ tag ++ body ++ fence ++ post) = true →
  length tag = length fence_python →
  first_at fence_python
    (lower (pre ++ tag ++ body ++ fence ++ post)) (length pre) →
  closed_by_next body →
  extract_code (pre ++ tag ++ body ++ fence ++ post) = ret (strip body).
Proof.
  intros. apply extract_code_with_closed; try done. apply find_lower_fence.
Qed.

Lemma extract_code_tagged_open pre tag rest :
  contains fence_python (pre ++ tag ++ rest) = true →
  length tag = length fence_python →
  first_at fence_python (lower (pre ++ tag ++ rest)) (length pre) →
  absent fence rest →
  extract_code (pre ++ tag ++ rest) = ret (strip rest).
Proof.
  intros. apply extract_code_with_open; try done. apply find_lower_fence.
Qed.

Lemma drop_lower k s : drop k (lower s) = lower (drop k s).
Proof. apply skipn_map. Qed.

Lemma extract_code_untagged llm_response :
  contains fence_python llm_response = false →
  extract_code llm_response = raise (UnboundLocalError "lower_llm_response").
Proof. apply extract_code_with_untagged. Qed.

(** What [extract_code] returns has no fence left. *)
Lemma extract_code_result_absent llm_response code :
  extract_code llm_response = ret code → absent fence code.
Proof. apply extract_code_with_absent. intros. apply find_lower_fence. Qed.

(** Hence [extract_code] is not idempotent anywhere: applied to a result of
    its own it raises. *)
Lemma extract_code_twice llm_response code :
  extract_code llm_response = ret code →
  extract_code code = raise (UnboundLocalError "lower_llm_response").
Proof.
  intros H. apply extract_code_untagged.
  apply contains_false; [done|].
  apply (absent_prefix fence); [done | done |].
  by eapply extract_code_result_absent.
Qed.

End EvaluatorFacts.

(** ** The classifier against the table *)

Module ClassifierFacts.

Import Classifier.

Lemma Qle_bool_false x y : Qle_bool x y = false ↔ (y < x)%Q.
Proof.
  destruct (Qle_bool x y) eqn:E.
  - apply Qle_bool_iff in E. split; [done | lra].
  - split; [|done]. intros _. apply Qnot_le_lt. intros H.
    apply Qle_bool_iff in H. congruence.
Qed.

Lemma Qeq_bool_false x y : Qeq_bool x y = false ↔ ¬ (x == y)%Q.
Proof.
  destruct (Qeq_bool x y) eqn:E.
  - apply Qeq_bool_iff in E. split; [done | tauto].
  - split; [|done]. intros _ H. apply Qeq_bool_iff in H. congruence.
Qed.

(** The code against the table, when a source without branches comes with a
    full branch coverage. *)
Lemma interpret_coverage_table tp lc bc nb :
  (Qeq_bool nb 0 = true → is_full bc = true) →
  interpret_coverage lc (encode bc) nb tp
  = label (table tp lc bc (negb (Qeq_bool nb 0))).
Proof.
  intros Hfull. unfold interpret_coverage, table.
  destruct tp; [|done]. cbn [negb].
  assert (eq_num (encode bc) 100 = is_full bc) as -> by by destruct bc.
  assert (∀ t, (t <= 100)%Q →
            is_number (encode bc) && lt_num (encode bc) t
            = negb (Qeq_bool nb 0) && below bc t) as Hlow.
  { intros t Ht. destruct (Qeq_bool nb 0) eqn:Enb; cbn [negb andb].
    - specialize (Hfull eq_refl). destruct bc as [q|]; simpl in *.
      + apply Qeq_bool_iff in Hfull.
        apply negb_false_iff, Qle_bool_iff. lra.
      + apply negb_false_iff, Qle_bool_iff. lra.
    - destruct bc as [q|]; simpl; [done|].
      apply negb_false_iff, Qle_bool_iff. lra. }
  rewrite !Hlow by lra. rewrite negb_involutive.
  destruct (Qeq_bool lc 100 && (is_full bc || Qeq_bool nb 0)); [done|].
  destruct (Qle_bool 90 lc);
    [by destruct (negb (Qeq_bool nb 0) && below bc 80)|].
  destruct (Qle_bool 70 lc);
    [by destruct (negb (Qeq_bool nb 0) && below bc 60)|].
  by destruct (Qle_bool 50 lc).
Qed.

(** The code against the table whose third and fourth rows do not ask for
    branches, on every tuple. *)
Lemma interpret_coverage_as_coded tp lc bc nb :
  interpret_coverage lc (encode bc) nb tp
  = label (table_as_coded tp lc bc (negb (Qeq_bool nb 0))).
Proof.
  unfold interpret_coverage, table_as_coded.
  destruct tp; [|done]. cbn [negb].
  assert (eq_num (encode bc) 100 = is_full bc) as -> by by destruct bc.
  assert (∀ t, (t <= 100)%Q →
            is_number (encode bc) && lt_num (encode bc) t = below bc t)
    as Hlow.
  { intros t Ht. destruct bc as [q|]; simpl; [done|].
    apply negb_false_iff, Qle_bool_iff. lra. }
  rewrite !Hlow by lra. rewrite negb_involutive.
  destruct (Qeq_bool lc 100 && (is_full bc || Qeq_bool nb 0)); [done|].
  destruct (Qle_bool 90 lc); [by destruct (below bc 80)|].
  destruct (Qle_bool 70 lc); [by destruct (below bc 60)|].
  by destruct (Qle_bool 50 lc).
Qed.

(** The two tables differ only where there are no branches and the branch
    coverage is not full. *)
Lemma table_as_coded_table tp lc bc hb :
  hb = true ∨ is_full bc = true →
  table_as_coded tp lc bc hb = table tp lc bc hb.
Proof.
  intros H. unfold table_as_coded, table.
  destruct hb; [done|]. destruct H as [?|Hfull]; [done|].
  assert (∀ t, (t <= 100)%Q → below bc t = false) as Hlow.
  { intros t Ht. destruct bc as [q|]; simpl in *; [|done].
    apply Qeq_bool_iff in Hfull. apply negb_false_iff, Qle_bool_iff. lra. }
  rewrite !Hlow by lra. done.
Qed.

Lemma interpret_coverage_total lc bc nb tp :
  ∃ v, interpret_coverage lc bc nb tp = label v.
Proof.
  unfold interpret_coverage.
  destruct tp; [|by exists FailedIncomplete]. cbn [negb].
  destruct (Qeq_bool lc 100 && _); [by exists PerfectCoverage|].
  destruct (Qle_bool 90 lc).
  { destruct (is_number bc && lt_num bc 80);
      [by exists HighLineLowBranch | by exists Excellent]. }
  destruct (Qle_bool 70 lc).
  { destruct (is_number bc && lt_num bc 60);
      [by exists GoodLineLowBranch | by exists Good]. }
  destruct (Qle_bool 50 lc); [by exists Moderate | by exists Low].
Qed.

Lemma label_inj v w : label v = label w → v = w.
Proof. destruct v, w; simpl; intros H; try reflexivity; discriminate H. Qed.

(** All eight verdicts are given by the code. *)
Lemma every_verdict_reached v :
  ∃ lc bc nb tp, interpret_coverage lc bc nb tp = label v.
Proof.
  destruct v.
  - by exists 0%Q, (PNum 0), 0%Q, false.
  - by exists 100%Q, (PNum 100), 0%Q, true.
  - by exists 95%Q, (PNum 50), 2%Q, true.
  - by exists 95%Q, (PNum 90), 2%Q, true.
  - by exists 75%Q, (PNum 50), 2%Q, true.
  - by exists 75%Q, (PNum 90), 2%Q, true.
  - by exists 55%Q, (PNum 90), 2%Q, true.
  - by exists 5%Q, (PNum 90), 2%Q, true.
Qed.

End ClassifierFacts.

(** ** Bounded and unbounded runs *)

Module ExecutorFacts.

Import Executor ClassifierFacts.

Lemma run_tests_timeout p :
  exceeds p 30 →
  run_tests p = Value {[ "error" := PStr "Test execution timed out" ]}.
Proof.
  unfold exceeds, run_tests, subprocess_run. destruct (duration p) as [d|]; [|done].
  intros H. apply Qle_bool_false in H. by rewrite H.
Qed.

Lemma run_tests_in_time p d :
  duration p = Some d → (d <= 30)%Q →
  ∃ r, run_tests p = Value r
       ∧ r !! "success" = Some (PBool (returncode (exit p) =? 0)%Z)
       ∧ r !! "error" = None.
Proof.
  intros Hd Hle. unfold run_tests, subprocess_run. rewrite Hd.
  apply Qle_bool_iff in Hle. rewrite Hle.
  eexists. split; [done|]. split; by simplify_map_eq.
Qed.

(** The bound of the evaluator and the lack of one in the coverage runner.
    [run_tests] bounds the run by 30: a run that exceeds the bound ends in
    the record [{"error": "Test execution timed out"}], and a run within the
    bound in a record with [success] and without [error].  The pytest runs of
    the coverage runner have no bound: a run that ends, after whatever time,
    is returned as it is, and one that never ends blocks both
    [test_apps_problem] and [test_humaneval_problem]. *)
Lemma bounded_and_unbounded_runs :
  (∀ p, exceeds p 30 →
     run_tests p = Value {[ "error" := PStr "Test execution timed out" ]})
  ∧ (∀ p d, duration p = Some d → (d <= 30)%Q →
       ∃ r, run_tests p = Value r
            ∧ r !! "success" = Some (PBool (returncode (exit p) =? 0)%Z)
            ∧ r !! "error" = None)
  ∧ (∀ p d, duration p = Some d → subprocess_run p None = Returned (exit p))
  ∧ (∀ round1 name llm custom content total p,
       duration p = None →
       test_apps_problem round1 name llm total p = Blocked
       ∧ test_humaneval_problem round1 name llm custom content p = Blocked).
Proof.
  split_and!.
  - apply run_tests_timeout.
  - apply run_tests_in_time.
  - intros p d Hd. unfold subprocess_run. by rewrite Hd.
  - intros round1 name llm custom content total p Hd.
    unfold test_apps_problem, test_humaneval_problem, subprocess_run.
    by rewrite Hd.
Qed.

End ExecutorFacts.

(** ** The scan of the detection *)

Module DetectFacts.

Import Assembler DetectProps.

Lemma scan_lines_cons line rest f c :
  scan_lines (line :: rest) f c =
    if negb (statement_line line) then scan_lines rest f c
    else if startswith (strip line) (lit "def ") then scan_lines rest true c
    else if startswith (strip line) (lit "class ") then scan_lines rest f true
    else if (f || c) && negb (top_level line) then scan_lines rest f c
    else if negb (import_line line) then true
    else scan_lines rest false false.
Proof.
  cbn [scan_lines]. unfold statement_line, import_line, top_level.
  rewrite negb_andb, negb_involutive.
  destruct (negb (truthy (strip line)) || startswith (strip line) (lit "#"));
    [done|].
  destruct (startswith (strip line) (lit "def ")); [done|].
  destruct (startswith (strip line) (lit "class ")); [done|].
  destruct ((f || c) && negb (starts_unindented line)); [done|].
  rewrite negb_orb.
  by destruct (negb (startswith (strip line) (lit "import "))
               && negb (startswith (strip line) (lit "from "))).
Qed.








End DetectFacts.

Module GuardFacts.

Import PyStrFacts.





End GuardFacts.

(** ** Checking the side conditions on a given text *)

Module Checks.

Import PyStrFacts Normalizer.




Import Assembler DetectProps.





End Checks.

(** * Main results *)

Import PyStrFacts Normalizer NormalizerFacts FenceFacts StripFacts
  ReindentFacts Checks.

(** ** Normalizer *)




(** Normalizing twice with [clean_llm_response] is normalizing once. *)
Lemma clean_llm_response_idempotent code :
  clean_llm_response (clean_llm_response code) = clean_llm_response code.
Proof.
  unfold clean_llm_response at 1. rewrite clean_second_stage.
  apply fix_indentation_idem.
Qed.

(** C5 at a failing input.  Of the two normalizers, [clean_llm_response] is
    idempotent on every text; [extract_code] is not: on a response that is
    one tagged block it returns the code of the block, and applied to that
    code it raises instead of returning it. *)
Theorem extract_code_not_idempotent :
  Evaluator.extract_code one_block = ret (lit "x = 1")
  ∧ Evaluator.extract_code (lit "x = 1")
    = raise (UnboundLocalError "lower_llm_response")
  ∧ (let! code := Evaluator.extract_code one_block in
     Evaluator.extract_code code)
    ≠ Evaluator.extract_code one_block
  ∧ clean_llm_response one_block = lit "x = 1"
  ∧ ∀ code,
      clean_llm_response (clean_llm_response code) = clean_llm_response code.
Proof.
  split_and!; [reflexivity | reflexivity | discriminate | reflexivity |].
  apply clean_llm_response_idempotent.
Qed.

(** C7, as the code has it.  When the first line of the text left by the
    fence stage is, trimmed, a function header, the result has the same first
    line and as many lines after it.  A line after it that is not blank and
    does not start with four spaces or a tab is replaced, at its position, by
    four spaces and the line trimmed; one that does start so is left as it
    is.  So every line after the first that is not blank starts with four
    spaces or a tab; the blank lines are those of the input, each at its
    position and unchanged. *)
Theorem reindent_after_header code line0 rest :
  split (strip_fences code) nl = line0 :: rest →
  startswith (strip line0) def_kw = true →
  ∃ body,
    split (clean_llm_response code) nl = line0 :: body
    ∧ length body = length rest
    ∧ (∀ i line, rest !! i = Some line → blank line = false →
         indented line = false → body !! i = Some (indent4 ++ strip line))
    ∧ (∀ i line, rest !! i = Some line → blank line = false →
         indented line = true → body !! i = Some line)
    ∧ (∀ i line, body !! i = Some line → blank line = false →
         indented line = true)
    ∧ (∀ i line, rest !! i = Some line → blank line = true →
         body !! i = Some line)
    ∧ (∀ i line, body !! i = Some line → blank line = true →
         rest !! i = Some line).
Proof.
  intros Hs Hd. exists (map fix_line rest). repeat split.
  - by apply fix_indentation_lines.
  - apply length_map.
  - intros i line Hi Hb Hn. rewrite list_lookup_fmap, Hi. simpl.
    by rewrite fix_line_reindents.
  - intros i line Hi Hb Hn. rewrite list_lookup_fmap, Hi. simpl.
    by rewrite fix_line_keeps_indented.
  - intros i line Hi Hb. rewrite list_lookup_fmap in Hi.
    destruct (rest !! i) as [l|]; [|done]. injection Hi as <-.
    apply fix_line_indents. by rewrite <- fix_line_keeps_blank.
  - intros i line Hi Hb. rewrite list_lookup_fmap, Hi. simpl.
    by rewrite fix_line_blank.
  - intros i line Hi Hb. rewrite list_lookup_fmap in Hi.
    destruct (rest !! i) as [l|]; [|done]. injection Hi as <-.
    rewrite fix_line_keeps_blank in Hb. by rewrite fix_line_blank.
Qed.

Lemma reindent_after_header_witness :
  ∃ body,
    split (clean_llm_response
             (unlines ["```python"; "def f(x):"; "y = x"; ""; "  return y";
                       "```"])) nl
    = lit "def f(x):" :: body
    ∧ length body = 3
    ∧ (∀ i line, [lit "y = x"; lit ""; lit "  return y"] !! i = Some line →
         blank line = false → indented line = false →
         body !! i = Some (indent4 ++ strip line))
    ∧ (∀ i line, [lit "y = x"; lit ""; lit "  return y"] !! i = Some line →
         blank line = false → indented line = true → body !! i = Some line)
    ∧ (∀ i line, body !! i = Some line → blank line = false →
         indented line = true)
    ∧ (∀ i line, [lit "y = x"; lit ""; lit "  return y"] !! i = Some line →
         blank line = true → body !! i = Some line)
    ∧ (∀ i line, body !! i = Some line → blank line = true →
         [lit "y = x"; lit ""; lit "  return y"] !! i = Some line).
Proof.
  apply (reindent_after_header
           (unlines ["```python"; "def f(x):"; "y = x"; ""; "  return y"; "```"])
           (lit "def f(x):") [lit "y = x"; lit ""; lit "  return y"]);
    reflexivity.
Defined.

(** C7 as stated fails: the header is the first line that is not blank, but
    not the first line, and the text has no fence; the body line is returned
    as it came, without indentation. *)
Lemma reindent_first_nonblank_counterexample :
  let code := unlines [""; "def f():"; "return 1"] in
  split code nl = [lit ""; lit "def f():"; lit "return 1"]
  ∧ blank (lit "") = true
  ∧ startswith (strip (lit "def f():")) def_kw = true
  ∧ split (clean_llm_response code) nl
    = [lit ""; lit "def f():"; lit "return 1"]
  ∧ blank (lit "return 1") = false
  ∧ indented (lit "return 1") = false.
Proof. intros code. split_and!; reflexivity. Qed.

(** ** Classifier and aggregator *)

Import Classifier Aggregator ClassifierFacts.

(** C1, as the code has it.  On every tuple the classifier returns the text
    of the verdict of the ordered table whose third and fourth rows do not
    ask for branches; that table and the table of section 4.5 give the same
    verdict whenever there are branches or the branch coverage is full.  On
    every tuple whatsoever the classifier returns the text of exactly one
    verdict, of the eight that the six rows can give, and
    [FailedIncomplete] when the tests did not pass. *)
Theorem classifier_follows_table :
  (∀ testsPassed lineCov branchCov num_branches,
     interpret_coverage lineCov (encode branchCov) num_branches testsPassed
     = label (table_as_coded testsPassed lineCov branchCov
                (negb (Qeq_bool num_branches 0))))
  ∧ (∀ testsPassed lineCov branchCov hasBranches,
       hasBranches = true ∨ is_full branchCov = true →
       table_as_coded testsPassed lineCov branchCov hasBranches
       = table testsPassed lineCov branchCov hasBranches)
  ∧ (∀ lineCov branch_cov num_branches testsPassed,
       ∃ v, interpret_coverage lineCov branch_cov num_branches testsPassed
            = label v
            ∧ ∀ w, interpret_coverage lineCov branch_cov num_branches
                     testsPassed = label w → w = v)
  ∧ (∀ lineCov branch_cov num_branches,
       interpret_coverage lineCov branch_cov num_branches false
       = label FailedIncomplete).
Proof.
  split_and!.
  - intros. apply interpret_coverage_as_coded.
  - intros. by apply table_as_coded_table.
  - intros lc bc nb tp.
    destruct (interpret_coverage_total lc bc nb tp) as [v Hv].
    exists v. split; [done|]. intros w Hw. apply label_inj. congruence.
  - done.
Qed.

(** The theorem at work: the code on a tuple without branches whose branch
    coverage is not full, once in the second row and once in the third; the
    two tables on a tuple with branches and on one with a full branch
    coverage. *)
Lemma classifier_follows_table_witness :
  interpret_coverage 100 (encode (Pct 50)) 0 true = label PerfectCoverage
  ∧ interpret_coverage 95 (encode (Pct 50)) 0 true = label HighLineLowBranch
  ∧ table_as_coded true 95 (Pct 50) true = table true 95 (Pct 50) true
  ∧ table_as_coded true 95 Full false = table true 95 Full false.
Proof.
  destruct classifier_follows_table as (H1 & H2 & _ & _). split_and!.
  - apply (H1 true 100%Q (Pct 50) 0%Q).
  - apply (H1 true 95%Q (Pct 50) 0%Q).
  - apply (H2 true 95%Q (Pct 50) true). left. reflexivity.
  - apply (H2 true 95%Q Full false). right. reflexivity.
Defined.

(** C1 as stated fails: with a line coverage of 95, a branch coverage of 50
    and no branches, the table says [Excellent] (its third row asks for
    branches) and the code says [HighLineLowBranch] (it asks only whether the
    branch coverage is a number). *)
Lemma classifier_table_counterexample :
  pct_ok 95 ∧ branch_ok (Pct 50)
  ∧ table true 95 (Pct 50) false = Excellent
  ∧ interpret_coverage 95 (encode (Pct 50)) 0 true = label HighLineLowBranch
  ∧ interpret_coverage 95 (encode (Pct 50)) 0 true
    ≠ label (table true 95 (Pct 50) false).
Proof.
  split_and!; try reflexivity; try discriminate.
  - unfold pct_ok. lra.
  - unfold branch_ok, pct_ok. lra.
Qed.

(** C6.  The branch coverage is the quotient times 100 when there are
    branches and the number 100 when there are none, whatever the covered
    count; no division raises; and the classifier, given that 100 for a source
    without branches, answers as the table does for "full". *)
Theorem branch_coverage_guarded covered_branches num_branches :
  ((0 < num_branches)%Q →
     branch_coverage covered_branches num_branches
     = ret (covered_branches / num_branches * 100)%Q)
  ∧ ((num_branches == 0)%Q →
       branch_coverage covered_branches num_branches = ret 100%Q)
  ∧ (∀ e, branch_coverage covered_branches num_branches ≠ raise e)
  ∧ (∀ lineCov testsPassed,
       (num_branches == 0)%Q →
       interpret_coverage lineCov (PNum 100) num_branches testsPassed
       = label (table testsPassed lineCov Full false)).
Proof.
  unfold branch_coverage, truediv. split_and!.
  - intros Hpos.
    assert (Qle_bool num_branches 0 = false) as -> by (apply Qle_bool_false; lra).
    assert (Qeq_bool num_branches 0 = false) as ->; [|done].
    apply Qeq_bool_false. lra.
  - intros Hz.
    assert (Qle_bool num_branches 0 = true) as ->; [|done].
    apply Qle_bool_iff. lra.
  - intros e. destruct (Qle_bool num_branches 0) eqn:E; [done|]. cbn [negb].
    apply Qle_bool_false in E.
    assert (Qeq_bool num_branches 0 = false) as ->; [|done].
    apply Qeq_bool_false. lra.
  - intros lc tp Hz. apply Qeq_bool_iff in Hz.
    change (PNum 100) with (encode Full).
    rewrite (interpret_coverage_table tp lc Full num_branches) by done.
    by rewrite Hz.
Qed.

Lemma branch_coverage_guarded_witness :
  branch_coverage 3 4 = ret (3 / 4 * 100)%Q
  ∧ branch_coverage 7 0 = ret 100%Q
  ∧ interpret_coverage 100 (PNum 100) 0 true = label PerfectCoverage.
Proof.
  split_and!.
  - apply (branch_coverage_guarded 3 4). reflexivity.
  - apply (branch_coverage_guarded 7 0). reflexivity.
  - apply (branch_coverage_guarded 7 0). reflexivity.
Defined.

(** ** Code extraction of the evaluator: the untagged fence *)

Import Evaluator EvaluatorFacts.

(** C10.  On a text with a fence but no tagged fence, [extract_code] raises
    the [NameError] of the unassigned local [lower_llm_response] and returns
    nothing. *)
Theorem extract_code_generic_fence_raises llm_response :
  contains fence llm_response = true →
  contains fence_python llm_response = false →
  extract_code llm_response = raise (UnboundLocalError "lower_llm_response")
  ∧ is_NameError (UnboundLocalError "lower_llm_response") = true
  ∧ ∀ code, extract_code llm_response ≠ ret code.
Proof.
  intros _ H. rewrite (extract_code_untagged _ H). by split_and!.
Qed.

Lemma extract_code_generic_fence_raises_witness :
  extract_code (unlines ["```"; "x = 1"; "```"])
  = raise (UnboundLocalError "lower_llm_response")
  ∧ is_NameError (UnboundLocalError "lower_llm_response") = true
  ∧ ∀ code, extract_code (unlines ["```"; "x = 1"; "```"]) ≠ ret code.
Proof.
  apply (extract_code_generic_fence_raises (unlines ["```"; "x = 1"; "```"]));
    reflexivity.
Defined.

(** The tagged path works: the block of the witness above, once tagged. *)
Example extract_code_tagged :
  extract_code (unlines ["```python"; "x = 1"; "```"]) = ret (lit "x = 1").
Proof. reflexivity. Qed.

(** Applied to its own result, which has no tagged fence, it raises. *)
Example extract_code_again :
  extract_code (lit "x = 1") = raise (UnboundLocalError "lower_llm_response").
Proof. reflexivity. Qed.

(** ** Executor *)

Import Executor ExecutorFacts.

(** C2 at failing inputs.  The evaluator's [run_tests] ends both a run of
    31 time units and a run that never ends in its timeout record.  The
    coverage runner does not: [test_apps_problem] reports the run of 31 time
    units as a run that passed with perfect coverage, and on the run that
    never ends neither [test_apps_problem] nor [test_humaneval_problem]
    returns. *)
Theorem coverage_runner_has_no_timeout :
  exceeds slow_pass 30 ∧ exceeds endless 30
  ∧ run_tests slow_pass
    = Value {[ "error" := PStr "Test execution timed out" ]}
  ∧ run_tests endless
    = Value {[ "error" := PStr "Test execution timed out" ]}
  ∧ (∃ r, test_apps_problem id "problem_001" false 1 slow_pass = Value r
          ∧ r !! "tests_passed" = Some (PStr "1/1")
          ∧ r !! "interpretation"
            = Some (PStr "Perfect coverage - all code paths tested")
          ∧ r !! "error" = None)
  ∧ test_apps_problem id "problem_001" false 1 endless = Blocked
  ∧ test_humaneval_problem id "problem_001" false false None endless = Blocked.
Proof.
  split_and!; try reflexivity.
  eexists. split; [reflexivity|]. split_and!; reflexivity.
Qed.




(** ** Isolation of the test cases *)

Import Isolation.

(** C8 at a failing input.  The candidate [counting] keeps its count in a
    global that its top-level code does not bind.  Its first test case starts
    in the dictionary of a new module and passes; the second starts in a
    dictionary that still holds the count of the first, which is not the
    dictionary of a new module, prints 2 and fails. *)
Theorem reload_keeps_unbound_globals :
  Assembler._detect_function_based_solution (source counting) = true
  ∧ fresh counting = ∅
  ∧ run_cases counting None [([], lit "1"); ([], lit "1")]
    = [(∅, true); ({[ "calls" := 1%Z ]}, false)]
  ∧ (test_case counting (Some {[ "calls" := 1%Z ]}) [] (lit "2")).2 = true.
Proof. split_and!; reflexivity. Qed.

(** What [reload] does give: a global that the top-level code binds, to a
    value that does not depend on the dictionary it runs in, has at the start
    of every test case the value it has in a new module. *)
Lemma case_start_rebound c x :
  (∀ ns ns' input,
     (module_body c ns input).1 !! x = (module_body c ns' input).1 !! x) →
  ∀ sys_modules, case_start c sys_modules !! x = fresh c !! x.
Proof. intros H sys_modules. unfold case_start, reload, fresh. apply H. Qed.

Example resetting_isolated :
  run_cases resetting None [([], lit "1"); ([], lit "1")]
  = [(fresh resetting, true); (fresh resetting, true)].
Proof. reflexivity. Qed.

(** ** Detection of the program convention *)

Import Assembler DetectProps DetectFacts GuardFacts.




(** * Further properties *)

Import RecordProps MoreExamples.

(** ** Normalizer *)

(** X1.  Whatever the text, the normalized text contains no fence. *)
Theorem clean_llm_response_no_fence code :
  contains fence (clean_llm_response code) = false.
Proof.
  apply contains_false; [done|]. unfold clean_llm_response.
  apply fix_indentation_absent.
  destruct (contains fence code) eqn:Hc.
  - by apply strip_fences_absent.
  - apply contains_false in Hc; [|done]. by rewrite strip_fences_id.
Qed.

(** X2.  The re-indentation stage neither adds nor removes a line, leaves the
    first line as it is, and changes a line at most in its surrounding white
    space. *)
Theorem fix_indentation_keeps_lines code :
  length (split (fix_indentation code) nl) = length (split code nl)
  ∧ head (split (fix_indentation code) nl) = head (split code nl)
  ∧ map strip (split (fix_indentation code) nl) = map strip (split code nl).
Proof.
  destruct (split code nl) as [|line0 rest] eqn:Hs;
    [by apply split_nonempty in Hs|].
  destruct (startswith (strip line0) def_kw) eqn:Hd.
  - rewrite (fix_indentation_lines _ _ _ Hs Hd). split_and!.
    + simpl. by rewrite length_map.
    + done.
    + simpl. f_equal. rewrite map_map. apply map_ext. apply fix_line_strip.
  - by rewrite (fix_indentation_other _ _ _ Hs Hd), Hs.
Qed.

(** ** Code extraction of the evaluator *)

(** X3.  [extract_code] returns a code exactly for the texts that contain a
    fence tagged [python]; on every other text it raises. *)
Theorem extract_code_succeeds_iff_tagged llm_response :
  (∃ code, extract_code llm_response = ret code)
  ↔ contains fence_python llm_response = true.
Proof.
  split.
  - intros [code H]. destruct (contains fence_python llm_response) eqn:E; [done|].
    by rewrite (extract_code_untagged _ E) in H.
  - intros H. rewrite (extract_code_interior _ H). eauto.
Qed.

(** X4.  When lowering moves no fence of the response, so that each fence is
    found in the lowered text at the offset it has in the response, what
    [extract_code] returns is trimmed and contains no fence, and a second
    application to it raises, whatever [str.lower] does there.  Lowering a
    text of code points below 256 moves no fence. *)
Theorem extract_code_result_final str_lower llm_response code :
  (∀ start, find (str_lower llm_response) fence start
            = find llm_response fence start) →
  extract_code_with str_lower llm_response = ret code →
  contains fence code = false
  ∧ strip code = code
  ∧ ∀ str_lower', extract_code_with str_lower' code
                  = raise (UnboundLocalError "lower_llm_response").
Proof.
  intros Hf H.
  assert (absent fence code) as Habs by by eapply extract_code_with_absent.
  split_and!.
  - by apply contains_false.
  - by eapply extract_code_with_trimmed.
  - intros str_lower'. apply extract_code_with_untagged.
    apply contains_false; [done|]. by apply (absent_prefix fence).
Qed.

Lemma extract_code_result_final_witness :
  contains fence (lit "x = 1") = false
  ∧ strip (lit "x = 1") = lit "x = 1"
  ∧ ∀ str_lower', extract_code_with str_lower' (lit "x = 1")
                  = raise (UnboundLocalError "lower_llm_response").
Proof.
  apply (extract_code_result_final lower one_block (lit "x = 1")).
  - intros start. apply find_lower_fence.
  - reflexivity.
Defined.

(** A text put behind a prefix that has none of its characters in common
    with the start of [sub] has the occurrences of [sub] it had. *)
Lemma absent_behind c sub p s :
  c ∉ p → absent (c :: sub) s → absent (c :: sub) (p ++ s).
Proof.
  intros Hp Hs k. destruct (Nat.le_gt_cases (length p) k) as [Hk|Hk].
  - rewrite drop_app_ge by done. apply Hs.
  - rewrite drop_app_le by lia.
    destruct (drop k p) as [|x rest] eqn:Hd.
    { apply (f_equal length) in Hd. rewrite length_drop in Hd. simpl in Hd. lia. }
    simpl. destruct (Ascii.eqb_spec x c) as [->|_]; [|done].
    exfalso. apply Hp. rewrite <- (take_drop k p), Hd.
    apply elem_of_app. right. apply list_elem_of_here.
Qed.

Import Evaluation.

Lemma api_error_untagged message :
  contains fence_python message = false →
  contains fence_python (call_llm (inl message)) = false.
Proof.
  intros H. apply contains_false in H; [|done]. apply contains_false; [done|].
  unfold call_llm. apply absent_behind; [|done].
  unfold lit. simpl. rewrite !not_elem_of_cons.
  split_and!; try done. apply not_elem_of_nil.
Qed.

(** X5.  When the call to the provider fails with a message that has no
    tagged fence, and likewise for every response without one,
    [evaluate_problem] raises the [NameError] of the extraction: no record is
    made, and the loop of [main] goes on with the results and the count it
    had. *)
Theorem untagged_response_is_skipped task_id model_name provider timestamp
    api p rest results passed_count :
  contains fence_python (call_llm api) = false →
  evaluate_problem true task_id model_name provider timestamp api p
  = Raises (UnboundLocalError "lower_llm_response")
  ∧ main_loop
      (evaluate_problem true task_id model_name provider timestamp api p
       :: rest) results passed_count
    = main_loop rest results passed_count.
Proof.
  intros H.
  assert (evaluate_problem true task_id model_name provider timestamp api p
          = Raises (UnboundLocalError "lower_llm_response")) as Hev.
  { unfold evaluate_problem. cbn [negb]. by rewrite (extract_code_untagged _ H). }
  split; [done|]. by rewrite Hev.
Qed.

Lemma untagged_response_is_skipped_witness :
  evaluate_problem true "HumanEval/1" "gpt-4o-mini" "openai" 0
    (inl (lit "Connection error.")) slow_pass
  = Raises (UnboundLocalError "lower_llm_response")
  ∧ main_loop
      [evaluate_problem true "HumanEval/1" "gpt-4o-mini" "openai" 0
         (inl (lit "Connection error.")) slow_pass] [] 0
    = main_loop [] [] 0.
Proof.
  apply (untagged_response_is_skipped "HumanEval/1" "gpt-4o-mini" "openai" 0
           (inl (lit "Connection error.")) slow_pass [] [] 0).
  apply api_error_untagged. reflexivity.
Defined.

(** ** Assembler *)

Import Assembler DetectProps DetectFacts.

Lemma first_def_Some lines name :
  first_def lines = Some name →
  ∃ line, line ∈ lines
    ∧ startswith (strip line) (lit "def ") = true
    ∧ name = strip (hd [] (split (slice_from (strip line) 4) "("%char)).
Proof.
  induction lines as [|l rest IH]; [done|]. cbn [first_def].
  destruct (startswith (strip l) (lit "def ")) eqn:E.
  - intros [= <-]. exists l. split_and!; [apply list_elem_of_here | done | done].
  - intros H. destruct (IH H) as (line & Hin & Hd & Hn).
    exists line. split_and!; [by apply list_elem_of_further | done | done].
Qed.

Lemma first_def_None lines :
  first_def lines = None
  ↔ Forall (λ line, startswith (strip line) (lit "def ") = false) lines.
Proof.
  induction lines as [|l rest IH]; cbn [first_def].
  - split; [constructor | done].
  - destruct (startswith (strip l) (lit "def ")) eqn:E.
    + split; [done|]. intros H. apply Forall_cons in H as [H _]. congruence.
    + rewrite IH. split; [by constructor|].
      intros H. by apply Forall_cons in H as [_ H].
Qed.

(** X6.  The name that [_extract_main_function_name] returns is what stands
    between [def ] and the first parenthesis on the first header line of the
    candidate, stripped: it has no parenthesis and no white space around
    it. *)
Theorem main_function_name_shape code name :
  _extract_main_function_name code = Some name →
  ("("%char ∉ name) ∧ strip name = name
  ∧ ∃ line, line ∈ split (strip code) nl
      ∧ startswith (strip line) (lit "def ") = true
      ∧ name = strip (hd [] (split (slice_from (strip line) 4) "("%char)).
Proof.
  intros H. apply first_def_Some in H as (line & Hin & Hd & ->).
  split_and!.
  - apply not_elem_of_strip.
    pose proof (split_no_sep (slice_from (strip line) 4) "("%char) as Hall.
    destruct (split (slice_from (strip line) 4) "(") as [|h t];
      [apply not_elem_of_nil|].
    by apply Forall_cons in Hall as [Hh _].
  - apply strip_idem.
  - by exists line.
Qed.

Lemma main_function_name_shape_witness :
  ("("%char ∉ lit "solve") ∧ strip (lit "solve") = lit "solve"
  ∧ ∃ line, line ∈ split (strip plain) nl
      ∧ startswith (strip line) (lit "def ") = true
      ∧ lit "solve"
        = strip (hd [] (split (slice_from (strip line) 4) "("%char)).
Proof. apply (main_function_name_shape plain (lit "solve")). reflexivity. Defined.

(** X7.  A candidate none of whose lines is a [def] header has no main
    function, and its solution file is the candidate itself: nothing is
    appended, whether it is classified as function-based or not. *)
Theorem no_def_no_wrapper code :
  Forall (λ line, startswith (strip line) (lit "def ") = false)
    (split (strip code) nl) →
  _extract_main_function_name code = None ∧ solution_code code = code.
Proof.
  intros H. apply first_def_None in H.
  unfold solution_code, _extract_main_function_name. rewrite H.
  split; [done|]. by destruct (_detect_function_based_solution code).
Qed.

Lemma no_def_no_wrapper_witness :
  _extract_main_function_name (unlines ["import sys"; "# nothing"]) = None
  ∧ solution_code (unlines ["import sys"; "# nothing"])
    = unlines ["import sys"; "# nothing"]
  ∧ _detect_function_based_solution (unlines ["import sys"; "# nothing"])
    = true.
Proof.
  split_and!; [| |reflexivity];
    apply (no_def_no_wrapper (unlines ["import sys"; "# nothing"]));
    repeat constructor.
Defined.

(** X8.  Blank lines and comment lines do not count in the scan of the
    detection: with or without such a line, wherever it stands, the scan of
    the lines gives the same answer. *)
Theorem scan_ignores_comments before line after in_function in_class :
  statement_line line = false →
  scan_lines (before ++ line :: after) in_function in_class
  = scan_lines (before ++ after) in_function in_class.
Proof.
  intros Hl. revert in_function in_class.
  induction before as [|l rest IH]; intros f c; simpl app.
  - rewrite scan_lines_cons, Hl. done.
  - rewrite !scan_lines_cons, !IH. done.
Qed.

Lemma scan_ignores_comments_witness :
  scan_lines ([lit "import sys"] ++ lit "  # a comment" :: [lit "x = 1"])
    false false
  = scan_lines ([lit "import sys"] ++ [lit "x = 1"]) false false.
Proof.
  apply (scan_ignores_comments [lit "import sys"] (lit "  # a comment")
           [lit "x = 1"] false false).
  reflexivity.
Defined.

(** ** Records of the coverage runner *)

Import Executor Classifier Aggregator ClassifierFacts.

Lemma branch_coverage_value cb nb :
  branch_coverage cb nb
  = ret (if Qle_bool nb 0 then 100%Q else (cb / nb * 100)%Q).
Proof.
  unfold branch_coverage, truediv.
  destruct (Qle_bool nb 0) eqn:E; [done|]. cbn [negb].
  apply Qle_bool_false in E.
  assert (Qeq_bool nb 0 = false) as ->; [|done].
  apply Qeq_bool_false. lra.
Qed.

(** The fields of a record made from a coverage file. *)
Lemma apps_record_fields round1 name llm total c summary :
  ∃ r, apps_record round1 name llm total c (Some summary) = ret r
    ∧ r !! "branch_coverage"
      = Some (if Qle_bool (get0 summary "num_branches") 0 then PStr "N/A"
              else PNum (round1 (get0 summary "covered_branches"
                                 / get0 summary "num_branches" * 100)%Q))
    ∧ r !! "line_coverage"
      = Some (PNum (round1 (get0 summary "percent_covered")))
    ∧ r !! "interpretation"
      = Some (PStr (interpret_coverage (get0 summary "percent_covered")
                      (PNum (if Qle_bool (get0 summary "num_branches") 0
                             then 100%Q
                             else (get0 summary "covered_branches"
                                   / get0 summary "num_branches" * 100)%Q))
                      (get0 summary "num_branches") (returncode c =? 0)%Z)).
Proof.
  unfold apps_record. rewrite branch_coverage_value. cbn [bind ret].
  eexists. split; [reflexivity|].
  destruct (Qle_bool (get0 summary "num_branches") 0);
    split_and!; by simplify_map_eq.
Qed.

Lemma humaneval_record_fields round1 name llm custom content c summary :
  ∃ r, humaneval_record round1 name llm custom content c (Some summary) = ret r
    ∧ r !! "branch_coverage"
      = Some (if Qle_bool (get0 summary "num_branches") 0 then PStr "N/A"
              else PNum (round1 (get0 summary "covered_branches"
                                 / get0 summary "num_branches" * 100)%Q))
    ∧ r !! "line_coverage"
      = Some (PNum (round1 (get0 summary "percent_covered")))
    ∧ r !! "interpretation"
      = Some (PStr (interpret_coverage (get0 summary "percent_covered")
                      (PNum (if Qle_bool (get0 summary "num_branches") 0
                             then 100%Q
                             else (get0 summary "covered_branches"
                                   / get0 summary "num_branches" * 100)%Q))
                      (get0 summary "num_branches") (returncode c =? 0)%Z)).
Proof.
  unfold humaneval_record. rewrite branch_coverage_value. cbn [bind ret].
  eexists. split; [reflexivity|].
  destruct (Qle_bool (get0 summary "num_branches") 0);
    split_and!; by simplify_map_eq.
Qed.

Lemma interpret_coverage_failed lc bc nb tp :
  interpret_coverage lc bc nb tp = label FailedIncomplete ↔ tp = false.
Proof.
  split; [|by intros ->].
  destruct tp; [|done]. unfold interpret_coverage. cbn [negb].
  destruct (Qeq_bool lc 100 && _); [discriminate|].
  destruct (Qle_bool 90 lc); [by destruct (is_number bc && lt_num bc 80)|].
  destruct (Qle_bool 70 lc); [by destruct (is_number bc && lt_num bc 60)|].
  by destruct (Qle_bool 50 lc).
Qed.

Lemma interpret_coverage_full lc nb tp :
  interpret_coverage lc (PNum 100) nb tp ≠ label HighLineLowBranch
  ∧ interpret_coverage lc (PNum 100) nb tp ≠ label GoodLineLowBranch.
Proof.
  unfold interpret_coverage. destruct tp; cbn [negb]; [|by split].
  destruct (Qeq_bool lc 100 && _); [by split|].
  change (is_number (PNum 100) && lt_num (PNum 100) 80) with false.
  change (is_number (PNum 100) && lt_num (PNum 100) 60) with false.
  destruct (Qle_bool 90 lc); [by split|].
  destruct (Qle_bool 70 lc); [by split|].
  by destruct (Qle_bool 50 lc).
Qed.

(** X10.  In a record made from a coverage file, the branch coverage is the
    text [N/A] when the file counts no branches, and then the interpretation
    is never one of the two that blame the branch coverage; when it counts
    some, the branch coverage is the rounded percentage of those covered. *)
Theorem record_branch_coverage round1 name llm custom content total c summary
    r :
  apps_record round1 name llm total c (Some summary) = ret r
  ∨ humaneval_record round1 name llm custom content c (Some summary) = ret r →
  ((get0 summary "num_branches" <= 0)%Q →
     r !! "branch_coverage" = Some (PStr "N/A")
     ∧ r !! "interpretation" ≠ Some (PStr (label HighLineLowBranch))
     ∧ r !! "interpretation" ≠ Some (PStr (label GoodLineLowBranch)))
  ∧ ((0 < get0 summary "num_branches")%Q →
       r !! "branch_coverage"
       = Some (PNum (round1 (get0 summary "covered_branches"
                             / get0 summary "num_branches" * 100)%Q))).
Proof.
  intros H.
  assert (r !! "branch_coverage"
      = Some (if Qle_bool (get0 summary "num_branches") 0 then PStr "N/A"
              else PNum (round1 (get0 summary "covered_branches"
                                 / get0 summary "num_branches" * 100)%Q))
    ∧ r !! "interpretation"
      = Some (PStr (interpret_coverage (get0 summary "percent_covered")
                      (PNum (if Qle_bool (get0 summary "num_branches") 0
                             then 100%Q
                             else (get0 summary "covered_branches"
                                   / get0 summary "num_branches" * 100)%Q))
                      (get0 summary "num_branches") (returncode c =? 0)%Z)))
    as [Hb Hi].
  { destruct H as [H|H].
    - destruct (apps_record_fields round1 name llm total c summary)
        as (r' & Hr & Hb & _ & Hi).
      rewrite Hr in H. by injection H as <-.
    - destruct (humaneval_record_fields round1 name llm custom content c summary)
        as (r' & Hr & Hb & _ & Hi).
      rewrite Hr in H. by injection H as <-. }
  split.
  - intros Hle. apply Qle_bool_iff in Hle. rewrite Hle in Hb, Hi.
    rewrite Hb, Hi. split_and!; [done | |].
    + intros [= Heq]. by apply interpret_coverage_full in Heq.
    + intros [= Heq]. by apply interpret_coverage_full in Heq.
  - intros Hlt. apply Qle_bool_false in Hlt. by rewrite Hlt in Hb.
Qed.

Lemma record_branch_coverage_witness :
  (∃ r, apps_record id "problem_001" false 1 (exit slow_pass)
          (Some full_summary) = ret r
     ∧ r !! "branch_coverage" = Some (PStr "N/A")
     ∧ r !! "interpretation" ≠ Some (PStr (label HighLineLowBranch))
     ∧ r !! "interpretation" ≠ Some (PStr (label GoodLineLowBranch)))
  ∧ (∃ r, humaneval_record id "problem_001" false false None (exit slow_pass)
            (Some partial_summary) = ret r
       ∧ r !! "branch_coverage" = Some (PNum (1 / 2 * 100))).
Proof.
  split.
  - eexists. split; [reflexivity|].
    eapply (record_branch_coverage id "problem_001"%string false false None 1
              (exit slow_pass) full_summary);
      [left; reflexivity | discriminate].
  - eexists. split; [reflexivity|].
    eapply (record_branch_coverage id "problem_001"%string false false None 1
              (exit slow_pass) partial_summary);
      [right; reflexivity | reflexivity].
Defined.

(** X11.  In a record made from a coverage file, the interpretation is
    "Tests failed - coverage may be incomplete" exactly when pytest returned
    a code other than 0, whatever the [tests_passed] text says. *)
Theorem record_failed_iff round1 name llm custom content total c summary r :
  apps_record round1 name llm total c (Some summary) = ret r
  ∨ humaneval_record round1 name llm custom content c (Some summary) = ret r →
  r !! "interpretation" = Some (PStr (label FailedIncomplete))
  ↔ returncode c ≠ 0%Z.
Proof.
  intros H.
  assert (∃ bc, r !! "interpretation"
      = Some (PStr (interpret_coverage (get0 summary "percent_covered") bc
                      (get0 summary "num_branches") (returncode c =? 0)%Z)))
    as [bc Hi].
  { destruct H as [H|H].
    - destruct (apps_record_fields round1 name llm total c summary)
        as (r' & Hr & _ & _ & Hi).
      rewrite Hr in H. injection H as <-. eauto.
    - destruct (humaneval_record_fields round1 name llm custom content c summary)
        as (r' & Hr & _ & _ & Hi).
      rewrite Hr in H. injection H as <-. eauto. }
  rewrite Hi. split.
  - intros [= Heq]. apply interpret_coverage_failed in Heq. lia.
  - intros Hne. do 2 f_equal. apply interpret_coverage_failed. lia.
Qed.

Lemma record_failed_iff_witness :
  ∃ r, apps_record id "problem_001" false 1 (exit crashed)
         (Some partial_summary) = ret r
    ∧ (r !! "interpretation" = Some (PStr (label FailedIncomplete))
       ↔ returncode (exit crashed) ≠ 0%Z).
Proof.
  eexists. split; [reflexivity|].
  eapply (record_failed_iff id "problem_001"%string false false None 1
            (exit crashed) partial_summary).
  left. reflexivity.
Defined.

(** X12.  A coverage file whose summary has no [percent_covered] is read as
    a line coverage of 0: for a passing run the record says "Low coverage"
    and not that coverage data is missing. *)
Theorem record_missing_percent round1 name llm custom content total c summary
    r :
  apps_record round1 name llm total c (Some summary) = ret r
  ∨ humaneval_record round1 name llm custom content c (Some summary) = ret r →
  summary !! "percent_covered" = None →
  returncode c = 0%Z →
  r !! "line_coverage" = Some (PNum (round1 0%Q))
  ∧ r !! "interpretation" = Some (PStr (label Low)).
Proof.
  intros H Hm Hrc.
  assert (get0 summary "percent_covered" = 0%Q) as Hz
    by (unfold get0; by rewrite Hm).
  assert (∃ bc, r !! "line_coverage"
      = Some (PNum (round1 (get0 summary "percent_covered")))
    ∧ r !! "interpretation"
      = Some (PStr (interpret_coverage (get0 summary "percent_covered") bc
                      (get0 summary "num_branches") (returncode c =? 0)%Z)))
    as (bc & Hl & Hi).
  { destruct H as [H|H].
    - destruct (apps_record_fields round1 name llm total c summary)
        as (r' & Hr & _ & Hl & Hi).
      rewrite Hr in H. injection H as <-. eauto.
    - destruct (humaneval_record_fields round1 name llm custom content c summary)
        as (r' & Hr & _ & Hl & Hi).
      rewrite Hr in H. injection H as <-. eauto. }
  rewrite Hl, Hi, Hz, Hrc. done.
Qed.

Lemma record_missing_percent_witness :
  ∃ r, humaneval_record id "problem_001" false false None (exit slow_pass)
         (Some ∅) = ret r
    ∧ r !! "line_coverage" = Some (PNum 0)
    ∧ r !! "interpretation" = Some (PStr (label Low)).
Proof.
  eexists. split; [reflexivity|].
  eapply (record_missing_percent id "problem_001"%string false false None 1
            (exit slow_pass) ∅); [right; reflexivity | reflexivity..].
Defined.

(** ** The report *)

Import Report.

(** The fields that the report reads, in every record of the test
    functions. *)
Lemma produced_fields round1 r :
  produced round1 r →
  ∃ problem type tests line branch,
    r !! "problem" = Some (PStr problem)
    ∧ r !! "type" = Some (PStr type)
    ∧ type ∈ ["APPS (Original)"; "APPS (LLM Tests)"; "HumanEval (Original)";
              "HumanEval (LLM Tests)"]%string
    ∧ r !! "tests_passed" = Some (PStr tests)
    ∧ r !! "line_coverage" = Some (PNum line)
    ∧ r !! "branch_coverage" = Some branch.
Proof.
  intros (name & llm & custom & content & total & p & H).
  unfold test_apps_problem, test_humaneval_problem, apps_record,
    humaneval_record in H.
  destruct (subprocess_run p None) as [c| |];
    [|destruct H; discriminate..].
  destruct (coverage_file p) as [summary|].
  - rewrite branch_coverage_value in H. cbn [bind ret of_result] in H.
    destruct H as [[= <-]|[= <-]]; destruct llm;
      do 5 eexists; split_and!; try (by simplify_map_eq);
      cbn; rewrite !elem_of_cons; tauto.
  - cbn [ret of_result] in H.
    destruct H as [[= <-]|[= <-]]; destruct llm;
      do 5 eexists; split_and!; try (by simplify_map_eq);
      cbn; rewrite !elem_of_cons; tauto.
Qed.

Lemma of_type_none results t :
  Forall (λ r, ∃ v, r !! "type" = Some v ∧ eq_str v t = false) results →
  of_type results t = inr [].
Proof.
  induction 1 as [|r rest (v & Hv & Hne) _ IH]; [done|].
  cbn [of_type]. unfold getitem. by rewrite Hv, IH, Hne.
Qed.

(** X13.  No record of the test functions has the type [HumanEval] or
    [APPS] that the report selects by: on the results of a run both groups
    are empty and no average is ever computed. *)
Theorem summary_statistics_empty round1 results :
  Forall (produced round1) results →
  of_type results "HumanEval" = inr []
  ∧ of_type results "APPS" = inr []
  ∧ summary_statistics results = inr (None, None).
Proof.
  intros H.
  assert (∀ t, t = "HumanEval"%string ∨ t = "APPS"%string →
            of_type results t = inr []) as Hn.
  { intros t Ht. apply of_type_none. eapply Forall_impl; [exact H|].
    intros r Hr.
    destruct (produced_fields _ _ Hr) as (_ & type & _ & _ & _ & _ & Hty & Hin & _).
    exists (PStr type). split; [done|].
    rewrite !elem_of_cons in Hin.
    destruct Hin as [->|[->|[->|[->|Hin]]]]; [| | | |by apply elem_of_nil in Hin];
      by destruct Ht as [->| ->]. }
  unfold summary_statistics.
  rewrite (Hn "HumanEval"%string), (Hn "APPS"%string) by auto. done.
Qed.

Lemma summary_statistics_empty_witness :
  ∃ r, test_apps_problem id "problem_001" false 1 slow_pass = Value r
    ∧ of_type [r] "HumanEval" = inr []
    ∧ of_type [r] "APPS" = inr []
    ∧ summary_statistics [r] = inr (None, None).
Proof.
  eexists. split; [reflexivity|].
  apply (summary_statistics_empty id). apply Forall_singleton.
  exists "problem_001"%string, false, false, None, 1, slow_pass.
  left. reflexivity.
Defined.

(** X14.  The report can print the row of every record of the test
    functions: the five fields are there and the line coverage is a number,
    also in the record of a run without coverage data. *)
Theorem row_of_produced round1 r :
  produced round1 r → ∃ values, row r = inr values.
Proof.
  intros H.
  destruct (produced_fields _ _ H)
    as (problem & type & tests & line & branch & Hp & Hty & _ & Hte & Hl & Hb).
  unfold row, getitem. rewrite Hb, Hp, Hty, Hte, Hl. simpl. eauto.
Qed.

Lemma row_of_produced_witness :
  ∃ r, test_humaneval_problem id "problem_001" false false None crashed
       = Value r
    ∧ ∃ values, row r = inr values.
Proof.
  eexists. split; [reflexivity|].
  apply (row_of_produced id).
  exists "problem_001"%string, false, false, None, 1, crashed.
  right. reflexivity.
Defined.

(** ** Counting the markers of the pytest output *)

Lemma count_from_absent s sub skip : absent sub s → count_from s sub skip = 0.
Proof.
  revert skip. induction s as [|c s IH]; intros skip H; [done|].
  cbn [count_from].
  assert (absent sub s) as Hs by (intros k; apply (H (S k))).
  destruct skip as [|k]; [|by apply IH].
  pose proof (H 0) as H0. simpl in H0. rewrite H0. by apply IH.
Qed.

Lemma count_zero_absent s sub : sub ≠ [] → count s sub = 0 → absent sub s.
Proof.
  intros Hne. unfold count. induction s as [|c s IH]; intros H.
  - by apply absent_nil.
  - cbn [count_from] in H.
    destruct (startswith (c :: s) sub) eqn:E; [done|].
    intros [|k]; [done|]. simpl. by apply IH.
Qed.

(** [s.count(sub)] is 0 exactly when [sub] is not in [s]. *)
Lemma count_zero_iff s sub :
  sub ≠ [] → count s sub = 0 ↔ contains sub s = false.
Proof.
  intros Hne. rewrite contains_false by done. split.
  - by apply count_zero_absent.
  - apply count_from_absent.
Qed.

(** When the [tests_passed] text of lines 205-230 is which. *)
Lemma test_status_cases r content text :
  (contains (lit " PASSED") (stdout r) = false →
   contains (lit " FAILED") (stdout r) = false →
   test_status true r content = "Error"%string)
  ∧ (contains (lit " PASSED") (stdout r) = true
     ∨ contains (lit " FAILED") (stdout r) = true →
     0 < count (stdout r) (lit " PASSED") + count (stdout r) (lit " FAILED")
     ∧ test_status true r content
       = (pretty (count (stdout r) (lit " PASSED")) +:+ "/"
          +:+ pretty (count (stdout r) (lit " PASSED")
                      + count (stdout r) (lit " FAILED")))%string)
  ∧ (returncode r ≠ 0%Z →
     contains (lit "assert ") text = false →
     test_status false r (Some text) = "Fail"%string)
  ∧ (returncode r ≠ 0%Z →
     contains (lit "assert ") text = true →
     0 < count text (lit "assert ")
     ∧ test_status false r (Some text)
       = ("0/" +:+ pretty (count text (lit "assert ")))%string).
Proof.
  unfold test_status.
  set (passed := count (stdout r) (lit " PASSED")).
  set (failed := count (stdout r) (lit " FAILED")).
  split_and!.
  - intros Hp Hf. apply count_zero_iff in Hp, Hf; [|done..].
    fold passed in Hp. fold failed in Hf. by rewrite Hp, Hf.
  - intros H.
    assert (0 < passed + failed) as Hpos.
    { destruct (Nat.eq_dec (passed + failed) 0) as [Hz|]; [|lia].
      assert (passed = 0 ∧ failed = 0) as [Hp Hf] by lia.
      apply count_zero_iff in Hp, Hf; [|done..].
      destruct H; congruence. }
    split; [done|].
    destruct (Nat.ltb_spec 0 (passed + failed)); [done | lia].
  - intros Hrc H.
    destruct (Z.eqb_spec (returncode r) 0) as [?|_]; [done|].
    apply count_zero_iff in H; [|done]. by rewrite H.
  - intros Hrc H.
    destruct (Z.eqb_spec (returncode r) 0) as [?|_]; [done|].
    assert (0 < count text (lit "assert ")) as Hpos.
    { destruct (Nat.eq_dec (count text (lit "assert ")) 0) as [Hz|]; [|lia].
      apply count_zero_iff in Hz; [|done]. congruence. }
    split; [done|].
    destruct (Nat.ltb_spec 0 (count text (lit "assert "))); [done | lia].
Qed.

(** The [tests_passed] text of lines 205-230 is one of three words or a
    ratio over a positive number. *)
Lemma test_status_shape custom r content :
  test_status custom r content = "Error"%string
  ∨ test_status custom r content = "All Pass"%string
  ∨ test_status custom r content = "Fail"%string
  ∨ ∃ a b : nat, 0 < b
      ∧ test_status custom r content = (pretty a +:+ "/" +:+ pretty b)%string.
Proof.
  unfold test_status. destruct custom.
  - destruct (Nat.ltb_spec 0
                (count (stdout r) (lit " PASSED")
                 + count (stdout r) (lit " FAILED"))); [|by left].
    right. right. right. eauto.
  - destruct (returncode r =? 0)%Z; [by right; left|].
    destruct content as [text|]; [|by right; right; left].
    destruct (Nat.ltb_spec 0 (count text (lit "assert ")));
      [|by right; right; left].
    right. right. right. exists 0, (count text (lit "assert ")). done.
Qed.

(** X15.  In a record that [test_humaneval_problem] makes from a coverage
    file, the [tests_passed] text is the one of lines 205-230: [Error],
    [All Pass], [Fail] or a ratio over a positive number, never a ratio over
    zero.  The record made without coverage data carries the fixed text
    [0/0 (Error)] instead. *)
Theorem tests_passed_over_zero round1 name llm custom content p rec :
  test_humaneval_problem round1 name llm custom content p = Value rec →
  (coverage_file p = None →
     rec !! "tests_passed" = Some (PStr "0/0 (Error)"))
  ∧ (coverage_file p ≠ None →
       rec !! "tests_passed"
       = Some (PStr (test_status custom (exit p) content))
       ∧ (test_status custom (exit p) content = "Error"%string
          ∨ test_status custom (exit p) content = "All Pass"%string
          ∨ test_status custom (exit p) content = "Fail"%string
          ∨ ∃ a b : nat, 0 < b
              ∧ test_status custom (exit p) content
                = (pretty a +:+ "/" +:+ pretty b)%string)).
Proof.
  unfold test_humaneval_problem, subprocess_run, humaneval_record.
  destruct (duration p) as [d|]; [|done].
  destruct (coverage_file p) as [summary|].
  - rewrite branch_coverage_value. cbn [bind ret of_result].
    intros [= <-]. split; [done|]. intros _.
    split; [by simplify_map_eq | apply test_status_shape].
  - cbn [ret of_result]. intros [= <-]. split; [|done].
    intros _. by simplify_map_eq.
Qed.

Lemma tests_passed_over_zero_witness :
  (∃ rec, test_humaneval_problem id "problem_001" false false None crashed
          = Value rec
     ∧ rec !! "tests_passed" = Some (PStr "0/0 (Error)"))
  ∧ (∃ rec, test_humaneval_problem id "problem_001" true true None slow_pass
            = Value rec
       ∧ rec !! "tests_passed" = Some (PStr "1/1")).
Proof.
  split.
  - eexists. split; [reflexivity|].
    eapply (tests_passed_over_zero id "problem_001"%string false false None
              crashed); reflexivity.
  - eexists. split; [reflexivity|].
    eapply (tests_passed_over_zero id "problem_001"%string true true None
              slow_pass); [reflexivity | discriminate].
Defined.

(** ** The evaluator's run *)



Lemma main_loop_invariant outcomes results passed_count results' passed' :
  main_loop outcomes results passed_count = Value (results', passed') →
  passed_count ≤ length results →
  passed' ≤ length results'
  ∧ length results' ≤ length results + length outcomes
  ∧ results `prefix_of` results'.
Proof.
  revert results passed_count.
  induction outcomes as [|o rest IH]; intros results passed_count H Hle.
  - injection H as <- <-. split_and!; [done | simpl; lia | done].
  - cbn [main_loop] in H.
    assert (∀ rs pc, main_loop rest rs pc = Value (results', passed') →
              pc ≤ length rs → length rs ≤ S (length results) →
              results `prefix_of` rs →
              passed' ≤ length results'
              ∧ length results' ≤ length results + length (o :: rest)
              ∧ results `prefix_of` results') as Hstep.
    { intros rs pc Hm Hpc Hlen Hpre.
      destruct (IH _ _ Hm Hpc) as (H1 & H2 & H3).
      split_and!; [done | simpl; lia | by etrans]. }
    destruct o as [[ev|]|e|]; [| | |done].
    + destruct (bool_decide (ev = ∅)); [apply (Hstep results passed_count); [done | done | lia | done]|].
      destruct (ev !! "passed") as [v|].
      * apply (Hstep _ _ H).
        -- rewrite length_app. simpl. destruct (truthy_val v); lia.
        -- rewrite length_app. simpl. lia.
        -- by apply prefix_app_r.
      * apply (Hstep _ _ H).
        -- rewrite length_app. simpl. lia.
        -- rewrite length_app. simpl. lia.
        -- by apply prefix_app_r.
    + apply (Hstep results passed_count); [done | done | lia | done].
    + apply (Hstep results passed_count); [done | done | lia | done].
Qed.

(** X17.  The summary of [main] is consistent whatever the problems did: the
    passed count is at most the number of records, which is at most the
    number of folders, so the failed count is not negative; and the pass rate
    is computed without dividing by zero and lies between 0 and 1. *)
Theorem summary_counts outcomes results passed_count :
  main_loop outcomes [] 0 = Value (results, passed_count) →
  passed_count ≤ length results
  ∧ length results ≤ length outcomes
  ∧ (0 <= failed results passed_count)%Z
  ∧ ∃ rate, pass_rate results passed_count = ret rate
            ∧ (0 <= rate)%Q ∧ (rate <= 1)%Q.
Proof.
  intros H.
  destruct (main_loop_invariant _ _ _ _ _ H) as (Hp & Hl & _); [simpl; lia|].
  simpl in Hl. split_and!; [done | done | unfold failed; lia |].
  unfold pass_rate, truediv.
  destruct results as [|r rs]; [exists 0%Q; split_and!; [done | lra | lra]|].
  set (n := length (r :: rs)) in *.
  assert (0 < n) as Hn by (unfold n; simpl; lia).
  assert (0 < inject_Z (Z.of_nat n))%Q as Hq.
  { change 0%Q with (inject_Z 0). rewrite <- Zlt_Qlt. lia. }
  assert (Qeq_bool (inject_Z (Z.of_nat n)) 0 = false) as ->.
  { apply Qeq_bool_false. lra. }
  eexists. split; [reflexivity|]. split.
  - apply Qle_shift_div_l; [done|]. rewrite Qmult_0_l.
    change 0%Q with (inject_Z 0). rewrite <- Zle_Qle. lia.
  - apply Qle_shift_div_r; [done|]. rewrite Qmult_1_l.
    rewrite <- Zle_Qle. lia.
Qed.

Lemma summary_counts_witness :
  ∃ results,
    main_loop
      [evaluate_problem true "HumanEval/1" "gpt-4o-mini" "openai" 0
         (inr tagged_response) quick_pass;
       evaluate_problem true "HumanEval/2" "gpt-4o-mini" "openai" 0
         (inr tagged_response) slow_pass;
       evaluate_problem true "HumanEval/3" "gpt-4o-mini" "openai" 0
         (inr (lit "def f(x): return x")) quick_pass;
       evaluate_problem false "HumanEval/4" "gpt-4o-mini" "openai" 0
         (inr tagged_response) quick_pass] [] 0
    = Value (results, 1)
    ∧ length results = 2
    ∧ 1 ≤ length results
    ∧ length results ≤ 4
    ∧ (0 <= failed results 1)%Z
    ∧ ∃ rate, pass_rate results 1 = ret rate ∧ (0 <= rate)%Q ∧ (rate <= 1)%Q.
Proof.
  eexists. split; [reflexivity|]. split; [reflexivity|].
  eapply (summary_counts
            [evaluate_problem true "HumanEval/1" "gpt-4o-mini" "openai" 0
               (inr tagged_response) quick_pass;
             evaluate_problem true "HumanEval/2" "gpt-4o-mini" "openai" 0
               (inr tagged_response) slow_pass;
             evaluate_problem true "HumanEval/3" "gpt-4o-mini" "openai" 0
               (inr (lit "def f(x): return x")) quick_pass;
             evaluate_problem false "HumanEval/4" "gpt-4o-mini" "openai" 0
               (inr tagged_response) quick_pass]).
  reflexivity.
Defined.

(** ** The runner of [setup_test.py] *)

Import SetupTest.

(** X18.  [run_test_file] reports a run that exceeds the bound of 30 as the
    triple (false, empty output, "Test execution timed out"); a run that
    fails within the bound, prints nothing and writes that text on its
    standard error gives the same triple, so the caller cannot tell the two
    apart. *)
Theorem run_test_file_timeout_not_distinct p q d code :
  exceeds p 30 →
  duration q = Some d → (d <= 30)%Q →
  exit q = {| returncode := code; stdout := [];
              stderr := lit "Test execution timed out" |} →
  code ≠ 0%Z →
  run_test_file p = Value (false, [], lit "Test execution timed out")
  ∧ run_test_file q = run_test_file p.
Proof.
  intros Hp Hd Hle Hex Hc.
  assert (run_test_file p = Value (false, [], lit "Test execution timed out"))
    as Hrp.
  { unfold run_test_file, subprocess_run, exceeds in *.
    destruct (duration p) as [dp|]; [|done].
    apply Qle_bool_false in Hp. by rewrite Hp. }
  split; [done|]. rewrite Hrp.
  unfold run_test_file, subprocess_run. rewrite Hd.
  apply Qle_bool_iff in Hle. rewrite Hle, Hex. cbn.
  by destruct (Z.eqb_spec code 0).
Qed.

Lemma run_test_file_timeout_not_distinct_witness :
  run_test_file endless = Value (false, [], lit "Test execution timed out")
  ∧ run_test_file fake_timeout = run_test_file endless.
Proof.
  apply (run_test_file_timeout_not_distinct endless fake_timeout 1 1);
    [reflexivity | reflexivity | discriminate | reflexivity | discriminate].
Defined.

(** ** Problem folders *)

Import Folders.

Lemma str_ltb_trans a b c :
  str_ltb a b = true → str_ltb b c = true → str_ltb a c = true.
Proof.
  revert b c. induction a as [|x a IH]; intros b c Hab Hbc.
  - destruct b; [done|]. by destruct c.
  - destruct b as [|y b]; [done|]. destruct c as [|z c]; [done|].
    simpl in *.
    apply orb_true_iff in Hab as [Hab|Hab]; apply orb_true_iff in Hbc as [Hbc|Hbc];
      apply orb_true_iff.
    + left. apply Nat.ltb_lt in Hab, Hbc. apply Nat.ltb_lt. lia.
    + apply andb_true_iff in Hbc as [Hyz _]. left.
      apply Nat.ltb_lt in Hab. apply Nat.eqb_eq in Hyz. apply Nat.ltb_lt. lia.
    + apply andb_true_iff in Hab as [Hxy _]. left.
      apply Nat.ltb_lt in Hbc. apply Nat.eqb_eq in Hxy. apply Nat.ltb_lt. lia.
    + apply andb_true_iff in Hab as [Hxy Hab].
      apply andb_true_iff in Hbc as [Hyz Hbc]. right.
      apply Nat.eqb_eq in Hxy, Hyz. apply andb_true_iff. split.
      * apply Nat.eqb_eq. lia.
      * by eapply IH.
Qed.

Lemma str_ltb_irrefl a : str_ltb a a = false.
Proof.
  induction a as [|x a IH]; [done|]. simpl.
  rewrite Nat.ltb_irrefl, IH. by rewrite andb_false_r.
Qed.

(** Each folder name below 999 is before the next one. *)
Lemma folder_name_next n :
  n < 999 → str_ltb (folder_name n) (folder_name (S n)) = true.
Proof.
  intros Hn.
  assert (forallb (λ k, str_ltb (folder_name k) (folder_name (S k)))
            (seq 0 999) = true) as Hall by (vm_compute; reflexivity).
  rewrite forallb_forall in Hall. apply Hall. apply in_seq. lia.
Qed.

(** X19.  The folders of the problems are found and kept in order by the
    runners: every folder name passes the filter on [problem_], and for
    problem numbers up to 999 a smaller number gives a name that sorts
    first, so that distinct numbers give distinct folders. *)
Theorem folder_names_sorted a b :
  a < b → b ≤ 999 →
  is_problem_folder (folder_name a) = true
  ∧ str_ltb (folder_name a) (folder_name b) = true
  ∧ folder_name a ≠ folder_name b.
Proof.
  intros Hab Hb.
  assert (str_ltb (folder_name a) (folder_name b) = true) as Hlt.
  { induction b as [|b IH]; [lia|].
    destruct (Nat.eq_dec a b) as [->|Hne].
    - apply folder_name_next. lia.
    - eapply str_ltb_trans; [apply IH; lia | apply folder_name_next; lia]. }
  split_and!; [apply startswith_self | done |].
  intros Heq. rewrite Heq, str_ltb_irrefl in Hlt. done.
Qed.

Lemma folder_names_sorted_witness :
  is_problem_folder (folder_name 7) = true
  ∧ str_ltb (folder_name 7) (folder_name 20) = true
  ∧ folder_name 7 ≠ folder_name 20.
Proof. apply (folder_names_sorted 7 20); lia. Defined.

(** Beyond 999 the order of the names is not that of the numbers. *)
Example folder_names_unsorted :
  str_ltb (folder_name 1000) (folder_name 999) = true.
Proof. reflexivity. Qed.

(** ** Command line *)

Import Cli.

(** X20.  Every value that the command line accepts is a key of the map of
    test types and selects at least one of the two test suites; [1] and [2]
    select what [original] and [llm] select. *)
Theorem every_choice_runs choice :
  choice ∈ choices →
  ∃ test_type,
    test_type_map !! choice = Some test_type
    ∧ (run_original test_type || run_llm test_type) = true.
Proof.
  unfold choices. rewrite !elem_of_cons.
  intros [->|[->|[->|[->|[->|H]]]]]; [| | | | |by apply elem_of_nil in H];
    eexists; split; reflexivity.
Qed.

Lemma every_choice_runs_witness :
  ∃ test_type,
    test_type_map !! "2" = Some test_type
    ∧ (run_original test_type || run_llm test_type) = true.
Proof.
  apply (every_choice_runs "2").
  unfold choices. rewrite !elem_of_cons. tauto.
Defined.

(** ** Bounded runs and the records they give *)

Lemma run_tests_returns p : ∃ r, run_tests p = Value r.
Proof.
  unfold run_tests, subprocess_run.
  destruct (duration p) as [d|]; [destruct (Qle_bool d 30)|]; eauto.
Qed.

(** X22.  The two runners that pass a timeout always return, also on a
    process that never ends. *)
Theorem bounded_runs_return p :
  (∃ r, run_tests p = Value r) ∧ (∃ t, run_test_file p = Value t).
Proof.
  unfold run_tests, run_test_file, subprocess_run.
  destruct (duration p) as [d|]; [destruct (Qle_bool d 30)|];
    split; eexists; reflexivity.
Qed.

(** X23.  [evaluate_problem] makes a record exactly for the responses that
    contain a tagged fence. *)
Theorem evaluation_record_iff_tagged task_id model_name provider timestamp
    api p :
  (∃ ev, evaluate_problem true task_id model_name provider timestamp api p
         = Value (Some ev))
  ↔ contains fence_python (call_llm api) = true.
Proof.
  unfold evaluate_problem. cbn [negb]. split.
  - intros [ev H].
    destruct (contains fence_python (call_llm api)) eqn:E; [done|].
    by rewrite (extract_code_untagged _ E) in H.
  - intros H. rewrite (extract_code_interior _ H).
    destruct (run_tests_returns p) as [r ->]. eauto.
Qed.

(** X24.  When the text has a fence, what the fence stage returns is
    trimmed. *)
Theorem strip_fences_trimmed code :
  contains fence code = true →
  strip (strip_fences code) = strip_fences code.
Proof.
  intros H. rewrite strip_fences_interior, H.
  destruct (contains fence_python code); unfold interior;
    by destruct (negb _); rewrite strip_idem.
Qed.

Lemma strip_fences_trimmed_witness :
  strip (strip_fences (unlines ["Here:"; "```"; "  x = 1  "; "```"]))
  = strip_fences (unlines ["Here:"; "```"; "  x = 1  "; "```"]).
Proof.
  apply (strip_fences_trimmed (unlines ["Here:"; "```"; "  x = 1  "; "```"])).
  reflexivity.
Defined.
